(** * toxcbt: a Tox echo bot

    A shallow embedding of the two entry points of the repository (the root
    command and [cmd/toxcbt/main.go]) together with the properties of the
    bootstrap-list parser, the message handler, the [save] routine and the
    run loop.

    Go strings are byte sequences; they are modelled by [string], whose
    characters are the 256 bytes of [ascii].  The slice of bytes returned by
    the engine's [GetSavedata] is a [list ascii]. *)

From Stdlib Require Import Ascii String NArith.
From stdpp Require Import gmap strings list.

Local Open Scope string_scope.
Local Open Scope list_scope.

(** ** The part of the Go standard library the program calls *)

Module GoLib.

Definition byte (n : nat) : ascii := ascii_of_nat n.

Definition bytes (l : list nat) : string :=
  string_of_list_ascii (byte <$> l).

Definition byteEq (a b : ascii) : bool := bool_decide (a = b).

(** UTF-8 encodings of the runes for which [unicode.IsSpace] holds: the six
    ASCII ones, U+0085, U+00A0, U+1680, U+2000..U+200A, U+2028, U+2029,
    U+202F, U+205F and U+3000. *)
Definition spaceRunes : list string :=
  bytes <$>
    [ [9]; [10]; [11]; [12]; [13]; [32];
      [194; 133]; [194; 160];
      [225; 154; 128];
      [226; 128; 128]; [226; 128; 129]; [226; 128; 130]; [226; 128; 131];
      [226; 128; 132]; [226; 128; 133]; [226; 128; 134]; [226; 128; 135];
      [226; 128; 136]; [226; 128; 137]; [226; 128; 138];
      [226; 128; 168]; [226; 128; 169]; [226; 128; 175];
      [226; 129; 159];
      [227; 128; 128] ].

(** [stripPrefix p s] is the rest of [s] after its prefix [p], if [p] is
    one. *)
Fixpoint stripPrefix (p s : string) : option string :=
  match p with
  | EmptyString => Some s
  | String a p' =>
      match s with
      | EmptyString => None
      | String b s' => if byteEq a b then stripPrefix p' s' else None
      end
  end.

(** The rest of [s] after one leading rune of [runes], if [s] starts with
    one. *)
Fixpoint stripRune (runes : list string) (s : string) : option string :=
  match runes with
  | [] => None
  | r :: rs =>
      match stripPrefix r s with
      | Some rest => Some rest
      | None => stripRune rs s
      end
  end.

(** The loop of [strings.TrimLeftFunc]: decode the rune at the front and
    advance over it while it is white space.  Every round consumes at least
    one byte, so [String.length s] rounds are enough. *)
Fixpoint trimRunes (runes : list string) (rounds : nat) (s : string) : string :=
  match rounds with
  | O => s
  | S k =>
      match stripRune runes s with
      | Some rest => trimRunes runes k rest
      | None => s
      end
  end.

Definition TrimLeftSpace (s : string) : string :=
  trimRunes spaceRunes (String.length s) s.

(** [strings.TrimRightFunc] decodes runes from the end; a rune ends the
    string exactly when its reversed encoding starts the reversed string. *)
Definition TrimRightSpace (s : string) : string :=
  String.rev (trimRunes (String.rev <$> spaceRunes) (String.length s) (String.rev s)).

(** [strings.TrimSpace]. *)
Definition TrimSpace (s : string) : string :=
  TrimRightSpace (TrimLeftSpace s).

(** [strings.Split(s, sep)] for a separator of one byte, which is how the
    program calls it (["," ] and [":"]). The result is never empty. *)
Fixpoint Split (s : string) (sep : ascii) : list string :=
  match s with
  | EmptyString => [EmptyString]
  | String c r =>
      if byteEq c sep then EmptyString :: Split r sep
      else match Split r sep with
           | h :: t => String c h :: t
           | [] => [String c EmptyString]
           end
  end.

(** [strings.Join(elems, sep)]. *)
Definition Join (elems : list string) (sep : string) : string :=
  String.concat sep elems.

(** [strings.ReplaceAll(s, old, new)] for [old] of one byte. *)
Fixpoint ReplaceAll (s : string) (old : ascii) (new : string) : string :=
  match s with
  | EmptyString => EmptyString
  | String c r =>
      if byteEq c old then new +:+ ReplaceAll r old new
      else String c (ReplaceAll r old new)
  end.

(** [strconv.ParseUint(s, 10, bitSize)]. *)
Inductive NumError := ErrSyntax | ErrRange.

Definition maxUint64 : N := 18446744073709551615.

(** The digit of a byte in base 10; a letter is a digit of value 10 or
    more, which base 10 refuses like any other byte. *)
Definition decimalDigit (c : ascii) : option N :=
  let n := N_of_ascii c in
  if ((48 <=? n) && (n <=? 57))%N then Some (n - 48)%N else None.

Fixpoint parseUintLoop (cutoff maxVal n : N) (s : string) : NumError + N :=
  match s with
  | EmptyString => inr n
  | String c r =>
      match decimalDigit c with
      | None => inl ErrSyntax
      | Some d =>
          if (cutoff <=? n)%N then inl ErrRange
          else
            let n1 := (n * 10 + d)%N in
            if (maxVal <? n1)%N then inl ErrRange
            else parseUintLoop cutoff maxVal n1 r
      end
  end.

Definition ParseUint10 (s : string) (bitSize : N) : NumError + N :=
  match s with
  | EmptyString => inl ErrSyntax
  | _ => parseUintLoop (maxUint64 / 10 + 1)%N (2 ^ bitSize - 1)%N 0%N s
  end.

(** [encoding/hex.DecodeString]. *)
Inductive HexError := InvalidByteError (c : ascii) | ErrLength.

Definition fromHexChar (c : ascii) : option N :=
  let n := N_of_ascii c in
  if ((48 <=? n) && (n <=? 57))%N then Some (n - 48)%N
  else if ((97 <=? n) && (n <=? 102))%N then Some (n - 97 + 10)%N
  else if ((65 <=? n) && (n <=? 70))%N then Some (n - 65 + 10)%N
  else None.

Fixpoint DecodeString (s : string) : HexError + list N :=
  match s with
  | EmptyString => inr []
  | String p EmptyString =>
      match fromHexChar p with
      | None => inl (InvalidByteError p)
      | Some _ => inl ErrLength
      end
  | String p (String q r) =>
      match fromHexChar p with
      | None => inl (InvalidByteError p)
      | Some a =>
          match fromHexChar q with
          | None => inl (InvalidByteError q)
          | Some b =>
              match DecodeString r with
              | inl e => inl e
              | inr out => inr ((a * 16 + b)%N :: out)
              end
          end
      end
  end.

(** [os.Getenv]: the value of the variable, empty when it is not set. *)
Definition Getenv (env : gmap string string) (k : string) : string :=
  default EmptyString (env !! k).

End GoLib.

Import GoLib.

(** ** The engine, as far as the program observes it *)

Record Tox := {
  selfAddress : string;
  savedata : list ascii;
  outbox : list (N * string);
  bootstrapped : list (string * N * string)
}.

Definition FriendSendMessage (t : Tox) (friend : N) (text : string) : Tox :=
  {| selfAddress := selfAddress t;
     savedata := savedata t;
     outbox := outbox t ++ [(friend, text)];
     bootstrapped := bootstrapped t |}.

Definition Bootstrap (t : Tox) (h : string) (p : N) (k : string) : Tox :=
  {| selfAddress := selfAddress t;
     savedata := savedata t;
     outbox := outbox t;
     bootstrapped := bootstrapped t ++ [(h, p, k)] |}.

(** ** The friend-message callback (the same text in both entry points)

    The lines written to the log are left out here and in the parser. *)

Definition onFriendMessage (t : Tox) (friend : N) (message : string) : Tox :=
  let msg := TrimSpace message in
  if String.eqb msg "/ping" then FriendSendMessage t friend "pong"
  else if String.eqb msg "/id" then
    FriendSendMessage t friend ("my tox id: " +:+ selfAddress t)
  else FriendSendMessage t friend ("echo: " +:+ message).

(** ** Bootstrap nodes (root entry point) *)

Record bootstrapNode := {
  host : string;
  port : N;   (* uint16 *)
  key : string  (* hex public key *)
}.

(** One round of the loop of [parseBootstrapEnv]: the slice [out] after the
    entry [item].  The lines the rounds write to the log are left out. *)
Definition parseBootstrapItem (out : list bootstrapNode) (item : string)
  : list bootstrapNode :=
  let item := TrimSpace item in
  if String.eqb item "" then out
  else
    let parts := Split item ":" in
    if (length parts <? 3)%nat then out
    else
      let host := TrimSpace (nth 0 parts "") in
      let portStr := TrimSpace (nth 1 parts "") in
      let pubKey := TrimSpace (Join (drop 2 parts) ":") in
      match ParseUint10 portStr 16 with
      | inl _ => out
      | inr p64 =>
          let pubKey := ReplaceAll pubKey " " "" in
          match DecodeString pubKey with
          | inl _ => out
          | inr _ =>
              out ++ [ {| host := host; port := (p64 mod 2 ^ 16)%N; key := pubKey |} ]
          end
      end.

Definition parseBootstrapEnv (s : string) : list bootstrapNode :=
  let s := TrimSpace s in
  if String.eqb s "" then []
  else fold_left parseBootstrapItem (Split s ",") [].

Definition defaultBootstrap : list bootstrapNode :=
  [ {| host := "tox.abilinski.com"; port := 33445;
       key := "10C00EB250C3233E343E2AEBA07115A5C28920E9C8D29492F6D00B29049EDC7E" |};
    {| host := "144.217.167.73"; port := 33445;
       key := "7E5668E0EE09E19F320AD47902419331FFEE147BB3606769CFBE921A2A2FD34C" |} ].

(** [getenv] of both entry points. *)
Definition getenv (env : gmap string string) (k def : string) : string :=
  let v := TrimSpace (Getenv env k) in
  if String.eqb v "" then def else v.

(** The start-up of the root entry point, from "Bootstrap nodes" to the end
    of the loop over the nodes. *)
Module Root.

Definition resolveNodes (env : gmap string string) : list bootstrapNode :=
  let nodes := parseBootstrapEnv (Getenv env "TOX_BOOTSTRAP_NODES") in
  if (length nodes =? 0)%nat then defaultBootstrap else nodes.

Definition bootstrapAll (env : gmap string string) (t : Tox) : Tox :=
  fold_left (fun t n => Bootstrap t (host n) (port n) (key n)) (resolveNodes env) t.

End Root.

(** The same stretch of [cmd/toxcbt/main.go]. *)
Module Cmd.

Definition bootstrapNodes : list bootstrapNode :=
  [ {| host := "tox.abilinski.com"; port := 33445;
       key := "10C00EB250C3233E343E2AEBA07115A5C28920E9C8D29492F6D00B29049EDC7E" |};
    {| host := "144.217.167.73"; port := 33445;
       key := "7E5668E0EE09E19F320AD47902419331FFEE147BB3606769CFBE921A2A2FD34C" |} ].

Definition bootstrapOne (t : Tox) (n : bootstrapNode) : Tox :=
  match DecodeString (key n) with
  | inl _ => t
  | inr _ => Bootstrap t (host n) (port n) (key n)
  end.

Definition bootstrapAll (env : gmap string string) (t : Tox) : Tox :=
  fold_left bootstrapOne bootstrapNodes t.

End Cmd.

(** ** Files and [save] (the same text in both entry points) *)

Inductive FsCall :=
| CallWriteFile (name : string) (data : list ascii)
| CallRename (oldname newname : string)
| CallRemove (name : string).

Inductive LogLine :=
| LogSaveSkipped
| LogSaveFailed
| LogSaveRenameFailed
| LogSaved (name : string) (size : nat).

(** The file system has names and, apart from them, the files they name:
    two names may be links to one file (hard links), which then has its
    bytes under both. *)
Record World := {
  names : gmap string nat;          (* which file each name is a name of *)
  inodes : gmap nat (list ascii);   (* the bytes of each file *)
  calls : list FsCall;
  logged : list LogLine
}.

(** What is read under each name. *)
Definition files (w : World) : gmap string (list ascii) :=
  omap (fun i => inodes w !! i) (names w).


(** The number of a file that is not there yet. *)
Definition newInode (w : World) : nat :=
  fresh (dom (inodes w) ∪ (map_img (names w) : gset nat)).

(** How the operating system answers the calls of one [save]. [WriteCut n]
    is a write that fails after the file was truncated and [n] bytes went
    out; [WriteRefused] fails before the file is touched. *)
Inductive WriteOutcome := WriteDone | WriteRefused | WriteCut (n : nat).

Record Answers := {
  onWrite : WriteOutcome;
  renameFails : bool;
  removeFails : bool
}.

Definition logPrintf (l : LogLine) (w : World) : World :=
  {| names := names w; inodes := inodes w; calls := calls w; logged := logged w ++ [l] |}.

(** [os.WriteFile], which opens the name for writing, creating the file
    when the name is free and truncating the file the name leads to when it
    is not, and writes the data: the world after the call, and whether it
    failed. *)
Definition WriteFile (o : WriteOutcome) (name : string) (data : list ascii)
    (w : World) : World * bool :=
  let called := calls w ++ [CallWriteFile name data] in
  let i := default (newInode w) (names w !! name) in
  match o with
  | WriteDone =>
      ({| names := <[name := i]> (names w); inodes := <[i := data]> (inodes w);
          calls := called; logged := logged w |}, false)
  | WriteRefused =>
      ({| names := names w; inodes := inodes w; calls := called; logged := logged w |},
       true)
  | WriteCut n =>
      ({| names := <[name := i]> (names w); inodes := <[i := take n data]> (inodes w);
          calls := called; logged := logged w |}, true)
  end.

(** [os.Rename]: atomic; it fails when the system says so or when there is
    no [oldname]; when both names are names of one file it does nothing and
    succeeds; otherwise [newname] becomes a name of the file of [oldname],
    which is no name any more. *)
Definition Rename (fails : bool) (oldname newname : string) (w : World)
  : World * bool :=
  let called := calls w ++ [CallRename oldname newname] in
  let same := {| names := names w; inodes := inodes w; calls := called; logged := logged w |} in
  match names w !! oldname with
  | Some i =>
      if fails then (same, true)
      else if bool_decide (names w !! newname = Some i) then (same, false)
      else ({| names := <[newname := i]> (delete oldname (names w));
               inodes := inodes w; calls := called; logged := logged w |}, false)
  | None => (same, true)
  end.

(** [os.Remove]: the name goes, the file stays under its other names. *)
Definition Remove (fails : bool) (name : string) (w : World) : World * bool :=
  let called := calls w ++ [CallRemove name] in
  let same := {| names := names w; inodes := inodes w; calls := called; logged := logged w |} in
  match names w !! name with
  | Some _ =>
      if fails then (same, true)
      else ({| names := delete name (names w); inodes := inodes w;
               calls := called; logged := logged w |}, false)
  | None => (same, true)
  end.

Definition save (t : Tox) (path : string) (a : Answers) (w : World) : World :=
  let tmp := path +:+ ".tmp" in
  let data := savedata t in
  if (length data =? 0)%nat then logPrintf LogSaveSkipped w
  else
    let '(w1, err) := WriteFile (onWrite a) tmp data w in
    if err then logPrintf LogSaveFailed w1
    else
      let '(w2, err) := Rename (renameFails a) tmp path w1 in
      if err then
        let '(w3, _) := Remove (removeFails a) tmp w2 in
        logPrintf LogSaveRenameFailed w3
      else logPrintf (LogSaved path (length data)) w2.

(** ** The run loop (the same text in both entry points) *)

(** Where the loop stands: at the [select]; or the [select] has taken its
    [default] and [t.Iterate()] has not yet returned; or [t.Iterate()] has
    returned and the sleep is not yet over. *)
Inductive Stage := AtSelect | TickChosen | TickDone.

Record Proc := {
  engine : Tox;
  world : World;
  ctxDone : bool;        (* the context of signal.NotifyContext is cancelled *)
  saveTickReady : bool;  (* a value waits in saveTick.C *)
  stage : Stage;
  returned : bool        (* main has returned *)
}.

Inductive Event :=
| EvSignal     (* SIGINT or SIGTERM is delivered *)
| EvTimer      (* the ticker fires *)
| EvShutdown   (* the case <-ctx.Done() is taken *)
| EvSave       (* a call of save *)
| EvIterate    (* t.Iterate(), when it returns *)
| EvSleep      (* time.Sleep *)
| EvReturn.    (* return from main *)

(** What happens around the program, at any moment before [main] returns,
    also after the [default] was taken, while [t.Iterate()] runs and during
    the sleep: a signal cancels the context for good, the ticker puts a
    value in its channel (of capacity one). *)
Inductive arrives : Proc -> Event -> Proc -> Prop :=
| arrives_signal p :
    returned p = false ->
    arrives p EvSignal
      {| engine := engine p; world := world p; ctxDone := true;
         saveTickReady := saveTickReady p; stage := stage p; returned := false |}
| arrives_timer p :
    returned p = false ->
    arrives p EvTimer
      {| engine := engine p; world := world p; ctxDone := ctxDone p;
         saveTickReady := true; stage := stage p; returned := false |}.

(** The steps of the [for] loop.  At the [select] any one of the cases whose
    channel is ready is taken, and the [default] only when none is.  The
    shutdown and the periodic save are each one step: what arrives while
    they run is not looked at before the next [select], so it is the same
    as if it arrived just after.  The [default] is three steps: it is taken,
    then [t.Iterate()] runs and leaves the engine in some new state, then
    the sleep ends; what arrives in between changes the flags at once and
    is looked at at the next [select] only. *)
Inductive pass (saveFile : string) : Proc -> list Event -> Proc -> Prop :=
| pass_shutdown p a :
    returned p = false -> stage p = AtSelect ->
    ctxDone p = true ->
    pass saveFile p [EvShutdown; EvSave; EvReturn]
      {| engine := engine p; world := save (engine p) saveFile a (world p);
         ctxDone := true; saveTickReady := saveTickReady p;
         stage := AtSelect; returned := true |}
| pass_save p a :
    returned p = false -> stage p = AtSelect ->
    saveTickReady p = true ->
    pass saveFile p [EvSave]
      {| engine := engine p; world := save (engine p) saveFile a (world p);
         ctxDone := ctxDone p; saveTickReady := false;
         stage := AtSelect; returned := false |}
| pass_default p :
    returned p = false -> stage p = AtSelect ->
    ctxDone p = false ->
    saveTickReady p = false ->
    pass saveFile p []
      {| engine := engine p; world := world p;
         ctxDone := false; saveTickReady := false;
         stage := TickChosen; returned := false |}
| pass_iterate p t' :
    returned p = false -> stage p = TickChosen ->
    pass saveFile p [EvIterate]
      {| engine := t'; world := world p;
         ctxDone := ctxDone p; saveTickReady := saveTickReady p;
         stage := TickDone; returned := false |}
| pass_sleep p :
    returned p = false -> stage p = TickDone ->
    pass saveFile p [EvSleep]
      {| engine := engine p; world := world p;
         ctxDone := ctxDone p; saveTickReady := saveTickReady p;
         stage := AtSelect; returned := false |}.

(** Executions of the loop: its steps, with arrivals between them. *)
Inductive run (saveFile : string) : Proc -> list Event -> Proc -> Prop :=
| run_stop p : run saveFile p [] p
| run_arrival p e p1 tr p2 :
    arrives p e p1 -> run saveFile p1 tr p2 -> run saveFile p (e :: tr) p2
| run_pass p evs p1 tr p2 :
    pass saveFile p evs p1 -> run saveFile p1 tr p2 -> run saveFile p (evs ++ tr) p2.

(** ** What the statements below are written with *)

(** Whether the byte [c] occurs in [s]. *)
Fixpoint hasByte (c : ascii) (s : string) : bool :=
  match s with
  | EmptyString => false
  | String a r => byteEq a c || hasByte c r
  end.

(** Strings made of white space only. *)
Inductive blank : string -> Prop :=
| blank_empty : blank EmptyString
| blank_rune r s : r ∈ spaceRunes -> blank s -> blank (r +:+ s).

(** The description of the parser, after the specification's words: the
    entries are the comma-separated pieces of the input, trimmed; an entry is
    valid when it has at least three colon-separated fields, its port parses
    as an unsigned 16-bit integer and its key, the remaining fields rejoined
    with colons, decodes as hexadecimal once its spaces are taken out; the
    result has one node per valid entry, in order.  [norm] is what is done to
    a field before it is used. *)
Module ParserSpec.
Section Fields.
Variable norm : string -> string.

Definition entries (s : string) : list string :=
  TrimSpace <$> Split (TrimSpace s) ",".

Definition fields (entry : string) : list string := Split entry ":".

Definition hostOf (entry : string) : string := norm (nth 0 (fields entry) "").

Definition portOf (entry : string) : NumError + N :=
  ParseUint10 (norm (nth 1 (fields entry) "")) 16.

Definition keyOf (entry : string) : string :=
  ReplaceAll (norm (Join (drop 2 (fields entry)) ":")) " " "".

Definition succeeds {E A} (r : E + A) : bool :=
  match r with inr _ => true | inl _ => false end.

Definition valid (entry : string) : bool :=
  (3 <=? length (fields entry))%nat
  && succeeds (portOf entry)
  && succeeds (DecodeString (keyOf entry)).

Definition node (entry : string) : bootstrapNode :=
  {| host := hostOf entry;
     port := match portOf entry with inr p => p | inl _ => 0%N end;
     key := keyOf entry |}.

Definition parse (s : string) : list bootstrapNode :=
  node <$> List.filter valid (entries s).
End Fields.

(** The fields used as they stand in the entry. *)
Definition parseExact : string -> list bootstrapNode := parse (fun f => f).

(** The fields used with their surrounding white space trimmed. *)
Definition parseTrimmed : string -> list bootstrapNode := parse TrimSpace.
End ParserSpec.


(** Values for the examples. *)
Definition bot (addr : string) : Tox :=
  {| selfAddress := addr; savedata := []; outbox := []; bootstrapped := [] |}.

Definition exampleEnv : gmap string string :=
  {[ "TOX_BOOTSTRAP_NODES" := "tox.example.org:33445:ABCD" ]}.

Definition exampleWorld : World :=
  {| names := {[ "/data/bot.tox" := 1%nat ]};
     inodes := {[ 1%nat := ["o"; "l"; "d"]%char ]};
     calls := []; logged := [] |}.




Definition exampleTox : Tox :=
  {| selfAddress := "76518406F6A9"; savedata := ["n"; "e"; "w"; "!"]%char;
     outbox := []; bootstrapped := [] |}.

Definition fine : Answers :=
  {| onWrite := WriteDone; renameFails := false; removeFails := false |}.

Definition startProc : Proc :=
  {| engine := exampleTox; world := exampleWorld;
     ctxDone := false; saveTickReady := false; stage := AtSelect; returned := false |}.

(** An execution in which the signal comes while the engine ticks, and a
    periodic save is made between the delivery of the signal and the step
    that takes the shutdown case. *)
Definition exampleTrace : list Event :=
  [EvIterate; EvSignal; EvSleep; EvTimer; EvSave; EvShutdown; EvSave; EvReturn].

Definition lastProc : Proc :=
  {| engine := exampleTox;
     world := save exampleTox "/data/bot.tox" fine
                (save exampleTox "/data/bot.tox" fine exampleWorld);
     ctxDone := true; saveTickReady := false; stage := AtSelect; returned := true |}.

Definition bothPending : Proc :=
  {| engine := exampleTox; world := exampleWorld;
     ctxDone := true; saveTickReady := true; stage := AtSelect; returned := false |}.


(** The select has taken its default, and then the signal has come. *)
Definition tickInFlight : Proc :=
  {| engine := exampleTox; world := exampleWorld;
     ctxDone := true; saveTickReady := false; stage := TickChosen; returned := false |}.

(** The tick is over and the loop is back at its [select]. *)
Definition tickServed : Proc :=
  {| engine := exampleTox; world := exampleWorld;
     ctxDone := true; saveTickReady := false; stage := AtSelect; returned := false |}.



(** ** The start of [main]: the saved state read back *)

(** [tox.LoadSavedata] reads the whole file; it fails when the system says
    so or when there is no such file. *)
Definition LoadSavedata (fails : bool) (name : string) (w : World)
  : option (list ascii) :=
  if fails then None else files w !! name.

(** The data [main] hands to the engine as [opts.Savedata_data]: what was
    read, when the read succeeded and gave at least one byte; [None] is the
    fresh start. *)
Definition loadedSavedata (fails : bool) (saveFile : string) (w : World)
  : option (list ascii) :=
  match LoadSavedata fails saveFile w with
  | Some b => if (0 <? length b)%nat then Some b else None
  | None => None
  end.

(** ** More of what the statements are written with *)

Definition sameEvent (a b : Event) : bool :=
  match a, b with
  | EvSignal, EvSignal | EvTimer, EvTimer | EvShutdown, EvShutdown
  | EvSave, EvSave | EvIterate, EvIterate | EvSleep, EvSleep
  | EvReturn, EvReturn => true
  | _, _ => false
  end.

(** How often the event [e] occurs in a trace. *)
Fixpoint countEvent (e : Event) (tr : list Event) : nat :=
  match tr with
  | [] => 0
  | x :: rest => (if sameEvent x e then 1 else 0) + countEvent e rest
  end.

(** The calls of a full [save], of which every [save] makes the first few. *)
Definition saveCalls (path : string) (data : list ascii) : list FsCall :=
  [ CallWriteFile (path +:+ ".tmp") data;
    CallRename (path +:+ ".tmp") path;
    CallRemove (path +:+ ".tmp") ].

(** What [t.Bootstrap] is called with for a node. *)
Definition attempt (n : bootstrapNode) : string * N * string :=
  (host n, port n, key n).

(** Whether every byte of [s] is a hexadecimal digit. *)
Fixpoint allHex (s : string) : bool :=
  match s with
  | EmptyString => true
  | String c r => match fromHexChar c with Some _ => allHex r | None => false end
  end.

(** The value of a string of decimal digits, read from the left with [n]
    so far; [None] when a byte is no digit. *)
Fixpoint decimalValue (n : N) (s : string) : option N :=
  match s with
  | EmptyString => Some n
  | String c r =>
      match decimalDigit c with
      | Some d => decimalValue (n * 10 + d)%N r
      | None => None
      end
  end.

(** Strings that are white-space runes of the list [runes] one after the
    other. *)
Inductive madeOf (runes : list string) : string -> Prop :=
| madeOf_empty : madeOf runes EmptyString
| madeOf_rune r s : r ∈ runes -> madeOf runes s -> madeOf runes (r +:+ s).

(** Whether [s] starts, or ends, with a white-space rune. *)
Definition startsWithSpace (s : string) : bool :=
  match stripRune spaceRunes s with Some _ => true | None => false end.

Definition endsWithSpace (s : string) : bool :=
  match stripRune (String.rev <$> spaceRunes) (String.rev s) with
  | Some _ => true
  | None => false
  end.

Definition arrival (e : Event) : bool :=
  match e with EvSignal | EvTimer => true | _ => false end.


(** How many events of a trace are steps of the program. *)
Fixpoint countProgram (tr : list Event) : nat :=
  match tr with
  | [] => 0
  | x :: rest => (if arrival x then 0 else 1) + countProgram rest
  end.

(** The steps the loop still makes before its next [select], and one for a
    tick of the save timer that waits. *)
Definition owed (p : Proc) : nat :=
  match stage p with AtSelect => 0 | TickChosen => 2 | TickDone => 1 end
  + (if saveTickReady p then 1 else 0).

(** The file that [save] writes to under the temporary name: the one the
    name leads to, or a new one. *)
Definition tmpInode (w : World) (path : string) : nat :=
  default (newInode w) (names w !! (path +:+ ".tmp")).

(** ** Facts about the library model *)

Example trim_hello : TrimSpace "  hello  " = "hello".
Proof. reflexivity. Qed.

Example parse_list :
  parseBootstrapEnv " a.org:1:AB , bad , b.org : 65535 : c d ef:12 , x:70000:aa, z:01:" =
  [ {| host := "a.org"; port := 1; key := "AB" |};
    {| host := "z"; port := 1; key := "" |} ].
Proof. vm_compute. reflexivity. Qed.

Example parse_host_trimmed :
  parseBootstrapEnv "tox.example.org :33445:ABCD" =
    [ {| host := "tox.example.org"; port := 33445; key := "ABCD" |} ] /\
  ParserSpec.parseExact "tox.example.org :33445:ABCD" =
    [ {| host := "tox.example.org "; port := 33445; key := "ABCD" |} ] /\
  parseBootstrapEnv "tox.example.org: 33445:ABCD" =
    [ {| host := "tox.example.org"; port := 33445; key := "ABCD" |} ] /\
  ParserSpec.parseExact "tox.example.org: 33445:ABCD" = [].
Proof. repeat split; vm_compute; reflexivity. Qed.

Section LibraryFacts.

Lemma app_String (a : ascii) (s1 s2 : string) :
  String a s1 +:+ s2 = String a (s1 +:+ s2).
Proof. reflexivity. Qed.

Lemma length_app (s1 s2 : string) :
  String.length (s1 +:+ s2) = (String.length s1 + String.length s2)%nat.
Proof. induction s1 as [| a s1 IH]; simpl; [reflexivity | now rewrite IH]. Qed.

Lemma hasByte_app c (s1 s2 : string) :
  hasByte c (s1 +:+ s2) = hasByte c s1 || hasByte c s2.
Proof.
  induction s1 as [| a s1 IH]; simpl; [reflexivity |].
  rewrite IH. now rewrite orb_assoc.
Qed.

Lemma hasByte_rev_app c (s1 s2 : string) :
  hasByte c (String.rev_app s1 s2) = hasByte c s1 || hasByte c s2.
Proof.
  revert s2. induction s1 as [| a s1 IH]; intros s2; simpl; [reflexivity |].
  rewrite IH. simpl. destruct (byteEq a c), (hasByte c s1); reflexivity.
Qed.

Lemma hasByte_rev c (s : string) : hasByte c (String.rev s) = hasByte c s.
Proof. unfold String.rev. rewrite hasByte_rev_app. simpl. apply orb_false_r. Qed.

Lemma stripPrefix_app (p s rest : string) :
  stripPrefix p s = Some rest -> s = p +:+ rest.
Proof.
  revert s. induction p as [| a p IH]; intros s; simpl.
  - now intros [= ->].
  - destruct s as [| b s]; [discriminate |].
    unfold byteEq. case_bool_decide as Hab; [| discriminate].
    intros Hrest. subst b. rewrite app_String. f_equal. now apply IH.
Qed.

Lemma stripRune_app (runes : list string) (s rest : string) :
  stripRune runes s = Some rest -> exists r, r ∈ runes /\ s = r +:+ rest.
Proof.
  induction runes as [| r rs IH]; simpl; [discriminate |].
  destruct (stripPrefix r s) as [x |] eqn:E.
  - intros [= ->]. exists r. split; [left | now apply stripPrefix_app].
  - intros H. destruct (IH H) as (r' & Hin & Hs). exists r'. split; [now right | exact Hs].
Qed.

(** The rounds given to [trimRunes] never run out. *)
Lemma trimRunes_rounds (runes : list string) (n m : nat) (s : string) :
  Forall (fun r => r <> EmptyString) runes ->
  (String.length s <= n)%nat -> (String.length s <= m)%nat ->
  trimRunes runes n s = trimRunes runes m s.
Proof.
  intros Hne. revert m s. induction n as [| n IH]; intros m s Hn Hm.
  - destruct s; [| simpl in Hn; lia].
    destruct m; simpl; [reflexivity |].
    destruct (stripRune runes "") as [rest |] eqn:E; [| reflexivity].
    destruct (stripRune_app _ _ _ E) as (r & Hin & Hs).
    rewrite Forall_forall in Hne. specialize (Hne r Hin).
    destruct r; [contradiction | discriminate].
  - simpl. destruct (stripRune runes s) as [rest |] eqn:E.
    + destruct (stripRune_app _ _ _ E) as (r & Hin & Hs).
      rewrite Forall_forall in Hne. pose proof (Hne r Hin) as Hr.
      assert (String.length rest < String.length s)%nat as Hlt.
      { subst s. rewrite length_app. destruct r; [contradiction | simpl; lia]. }
      destruct m as [| m]; [lia |]. simpl. rewrite E.
      apply IH; lia.
    + destruct m; simpl; [reflexivity | now rewrite E].
Qed.

Lemma trimRunes_hasByte c (runes : list string) (n : nat) (s : string) :
  Forall (fun r => hasByte c r = false) runes ->
  hasByte c (trimRunes runes n s) = hasByte c s.
Proof.
  intros Hc. revert s. induction n as [| n IH]; intros s; simpl; [reflexivity |].
  destruct (stripRune runes s) as [rest |] eqn:E; [| reflexivity].
  destruct (stripRune_app _ _ _ E) as (r & Hin & ->).
  rewrite Forall_forall in Hc. rewrite IH, hasByte_app, (Hc r Hin). reflexivity.
Qed.

Lemma spaceRunes_no_colon : Forall (fun r => hasByte ":" r = false) spaceRunes.
Proof. unfold spaceRunes. repeat constructor. Qed.

Lemma TrimSpace_colon (s : string) : hasByte ":" (TrimSpace s) = hasByte ":" s.
Proof.
  unfold TrimSpace, TrimRightSpace, TrimLeftSpace.
  rewrite hasByte_rev, trimRunes_hasByte, hasByte_rev.
  - apply trimRunes_hasByte, spaceRunes_no_colon.
  - unfold spaceRunes. repeat constructor.
Qed.

Lemma ReplaceAll_colon (s : string) :
  hasByte ":" (ReplaceAll s " " "") = hasByte ":" s.
Proof.
  induction s as [| a s IH]; simpl; [reflexivity |].
  unfold byteEq at 1. case_bool_decide as Ha.
  - subst a. exact IH.
  - simpl. now rewrite IH.
Qed.

Lemma Join_colon (x y : string) (l : list string) :
  hasByte ":" (Join (x :: y :: l) ":") = true.
Proof.
  unfold Join. simpl. rewrite hasByte_app. apply orb_true_iff. right.
  reflexivity.
Qed.

(** A string that decodes as hexadecimal holds no colon. *)
Lemma DecodeString_colon (s : string) (out : list N) :
  DecodeString s = inr out -> hasByte ":" s = false.
Proof.
  revert out.
  enough (forall n s, (String.length s <= n)%nat ->
            forall out, DecodeString s = inr out -> hasByte ":" s = false) as H
    by (intros out; now apply (H (String.length s))).
  clear s. intros n. induction n as [| n IH]; intros s Hlen out.
  - destruct s; [reflexivity | simpl in Hlen; lia].
  - destruct s as [| p [| q r]]; [reflexivity | |].
    + simpl. destruct (fromHexChar p); discriminate.
    + simpl in Hlen. cbn [DecodeString].
      destruct (fromHexChar p) as [a |] eqn:Ep; [| discriminate].
      destruct (fromHexChar q) as [b |] eqn:Eq; [| discriminate].
      destruct (DecodeString r) as [e | o] eqn:Er; [discriminate |].
      intros _. cbn [hasByte]. rewrite (IH r ltac:(lia) o Er).
      unfold byteEq. case_bool_decide as Hp; [subst p; discriminate Ep |].
      case_bool_decide as Hq; [subst q; discriminate Eq |]. reflexivity.
Qed.

Lemma parseUintLoop_bound (cutoff maxVal n p : N) (s : string) :
  (n <= maxVal)%N -> parseUintLoop cutoff maxVal n s = inr p -> (p <= maxVal)%N.
Proof.
  revert n. induction s as [| c s IH]; intros n Hn; simpl.
  - now intros [= <-].
  - destruct (decimalDigit c) as [d |]; [| discriminate].
    destruct (cutoff <=? n)%N; [discriminate |].
    destruct (maxVal <? n * 10 + d)%N eqn:E; [discriminate |].
    apply IH. now apply N.ltb_ge in E.
Qed.

Lemma ParseUint10_uint16 (s : string) (p : N) :
  ParseUint10 s 16 = inr p -> (p mod 2 ^ 16 = p)%N.
Proof.
  intros H. apply N.mod_small.
  assert (p <= 2 ^ 16 - 1)%N; [| lia].
  destruct s; [discriminate |].
  unfold ParseUint10 in H. eapply parseUintLoop_bound; [| exact H]. lia.
Qed.

Lemma stripRune_space (r rest : string) :
  r ∈ spaceRunes -> stripRune spaceRunes (r +:+ rest) = Some rest.
Proof.
  unfold spaceRunes. intros H.
  repeat (apply elem_of_cons in H as [-> | H]; [reflexivity |]).
  now apply elem_of_nil in H.
Qed.

Lemma spaceRunes_nonempty : Forall (fun r => r <> EmptyString) spaceRunes.
Proof. unfold spaceRunes. repeat constructor; discriminate. Qed.

Lemma blank_trimRunes (s : string) :
  blank s -> forall n, (String.length s <= n)%nat -> trimRunes spaceRunes n s = EmptyString.
Proof.
  induction 1 as [| r s Hr Hs IH]; intros n Hn.
  - destruct n; reflexivity.
  - pose proof spaceRunes_nonempty as Hne. rewrite Forall_forall in Hne.
    specialize (Hne r Hr). rewrite length_app in Hn.
    destruct n as [| n]; [destruct r; [contradiction | simpl in Hn; lia] |].
    cbn [trimRunes]. rewrite (stripRune_space r s Hr). apply IH.
    destruct r; [contradiction | simpl in Hn; lia].
Qed.

Lemma TrimSpace_blank (s : string) : blank s -> TrimSpace s = EmptyString.
Proof.
  intros H. unfold TrimSpace, TrimLeftSpace.
  rewrite (blank_trimRunes s H); [reflexivity | lia].
Qed.

End LibraryFacts.

(** ** The bootstrap list parser against its description *)

Section ParserFacts.
Import ParserSpec.

Lemma parseBootstrapItem_round (out : list bootstrapNode) (item : string) :
  parseBootstrapItem out item =
  out ++ (if valid TrimSpace (TrimSpace item)
          then [node TrimSpace (TrimSpace item)] else []).
Proof.
  unfold parseBootstrapItem, valid, node, hostOf, portOf, keyOf, fields.
  destruct (String.eqb_spec (TrimSpace item) "") as [-> | _].
  { now rewrite app_nil_r. }
  set (parts := Split (TrimSpace item) ":").
  destruct (Nat.ltb_spec (length parts) 3) as [Hlt | Hge].
  { apply Nat.leb_gt in Hlt. rewrite Hlt. now rewrite app_nil_r. }
  apply Nat.leb_le in Hge. rewrite Hge. cbn [andb].
  destruct (ParseUint10 (TrimSpace (nth 1 parts "")) 16) as [e | p] eqn:Ep;
    cbn [succeeds andb]; [now rewrite app_nil_r |].
  destruct (DecodeString _) as [e | bs]; cbn [succeeds];
    [now rewrite app_nil_r |].
  now rewrite (ParseUint10_uint16 _ _ Ep).
Qed.

Lemma parseBootstrapItem_app (out : list bootstrapNode) (item : string) :
  parseBootstrapItem out item = out ++ parseBootstrapItem [] item.
Proof. now rewrite (parseBootstrapItem_round out), (parseBootstrapItem_round []). Qed.

Lemma parse_loop (items : list string) (out : list bootstrapNode) :
  fold_left parseBootstrapItem items out =
  out ++ (node TrimSpace <$> List.filter (valid TrimSpace) (TrimSpace <$> items)).
Proof.
  revert out. induction items as [| item items IH]; intros out; simpl.
  - now rewrite app_nil_r.
  - rewrite IH, parseBootstrapItem_round.
    destruct (valid TrimSpace (TrimSpace item)); simpl.
    + now rewrite <- app_assoc.
    + now rewrite app_nil_r.
Qed.

Lemma parseBootstrapEnv_refines (s : string) :
  parseBootstrapEnv s = parseTrimmed s.
Proof.
  unfold parseBootstrapEnv, parseTrimmed, parse, entries.
  destruct (String.eqb_spec (TrimSpace s) "") as [-> | _]; [reflexivity |].
  apply parse_loop.
Qed.

Lemma parse_loop_nothing (items : list string) :
  Forall (fun item => parseBootstrapItem [] item = []) items ->
  fold_left parseBootstrapItem items [] = [].
Proof.
  induction 1 as [| item items Hitem _ IH]; simpl; [reflexivity |].
  now rewrite Hitem.
Qed.

End ParserFacts.

(** Whatever the environment, the entry point under cmd/ bootstraps against
    the built-in pair. *)
Lemma Cmd_ignores_environment (env : gmap string string) (t : Tox) :
  bootstrapped (Cmd.bootstrapAll env t) =
  bootstrapped t ++ ((fun n => (host n, port n, key n)) <$> defaultBootstrap).
Proof.
  unfold Cmd.bootstrapAll, Cmd.bootstrapNodes, Cmd.bootstrapOne.
  cbn [fold_left key host port].
  repeat match goal with
         | |- context [DecodeString ?k] =>
             let E := fresh "E" in
             destruct (DecodeString k) eqn:E; [vm_compute in E; discriminate |]
         end.
  unfold Bootstrap, defaultBootstrap. cbn [bootstrapped fmap list_fmap host port key].
  now rewrite <- app_assoc.
Qed.

(** ** [save] *)

Section SaveFacts.

Lemma tmp_differs (path : string) : path +:+ ".tmp" <> path.
Proof.
  intros H. apply (f_equal String.length) in H.
  rewrite length_app in H. simpl in H. lia.
Qed.

Lemma files_lookup (w : World) (x : string) :
  files w !! x = names w !! x ≫= (fun i => inodes w !! i).
Proof. unfold files. apply lookup_omap. Qed.


Lemma newInode_empty (w : World) : inodes w !! newInode w = None.
Proof.
  apply not_elem_of_dom. intros H.
  apply (is_fresh (dom (inodes w) ∪ (map_img (names w) : gset nat))).
  now apply elem_of_union_l.
Qed.


(** The world after a [save] of a state that is not empty. *)
Lemma save_eq (t : Tox) (path : string) (a : Answers) (w : World) :
  savedata t <> [] ->
  save t path a w =
    match onWrite a with
    | WriteRefused =>
        {| names := names w; inodes := inodes w;
           calls := calls w ++ [CallWriteFile (path +:+ ".tmp") (savedata t)];
           logged := logged w ++ [LogSaveFailed] |}
    | WriteCut n =>
        {| names := <[path +:+ ".tmp" := tmpInode w path]> (names w);
           inodes := <[tmpInode w path := take n (savedata t)]> (inodes w);
           calls := calls w ++ [CallWriteFile (path +:+ ".tmp") (savedata t)];
           logged := logged w ++ [LogSaveFailed] |}
    | WriteDone =>
        if renameFails a then
          {| names := if removeFails a
                      then <[path +:+ ".tmp" := tmpInode w path]> (names w)
                      else delete (path +:+ ".tmp") (names w);
             inodes := <[tmpInode w path := savedata t]> (inodes w);
             calls := calls w ++ [ CallWriteFile (path +:+ ".tmp") (savedata t);
                                   CallRename (path +:+ ".tmp") path;
                                   CallRemove (path +:+ ".tmp") ];
             logged := logged w ++ [LogSaveRenameFailed] |}
        else
          {| names := if bool_decide (names w !! path = Some (tmpInode w path))
                      then <[path +:+ ".tmp" := tmpInode w path]> (names w)
                      else <[path := tmpInode w path]> (delete (path +:+ ".tmp") (names w));
             inodes := <[tmpInode w path := savedata t]> (inodes w);
             calls := calls w ++ [ CallWriteFile (path +:+ ".tmp") (savedata t);
                                   CallRename (path +:+ ".tmp") path ];
             logged := logged w ++ [LogSaved path (length (savedata t))] |}
    end.
Proof.
  intros Hd. pose proof (tmp_differs path) as Htmp.
  unfold save. destruct (savedata t) as [| b data] eqn:Ed; [contradiction |].
  cbn [length Nat.eqb]. rewrite <- Ed. clear Ed Hd.
  fold (tmpInode w path).
  destruct (onWrite a) as [| | n]; unfold WriteFile; fold (tmpInode w path);
    cbn [logPrintf names inodes calls logged]; [| reflexivity | reflexivity].
  unfold Rename. cbn [names inodes calls logged]. rewrite lookup_insert_eq.
  destruct (renameFails a).
  - unfold Remove. cbn [names inodes calls logged]. rewrite lookup_insert_eq.
    destruct (removeFails a); cbn [logPrintf names inodes calls logged].
    + now rewrite <- !app_assoc.
    + rewrite delete_insert_eq. now rewrite <- !app_assoc.
  - rewrite lookup_insert_ne by exact Htmp.
    destruct (bool_decide (names w !! path = Some (tmpInode w path)));
      cbn [logPrintf names inodes calls logged].
    + now rewrite <- !app_assoc.
    + rewrite delete_insert_eq. now rewrite <- !app_assoc.
Qed.





End SaveFacts.

Section SaveNames.
Variables (t : Tox) (path : string) (a : Answers) (w : World).






Lemma save_done :
  savedata t <> [] -> onWrite a = WriteDone -> renameFails a = false ->
  files (save t path a w) !! path = Some (savedata t) /\
  calls (save t path a w) =
    calls w ++ [ CallWriteFile (path +:+ ".tmp") (savedata t);
                 CallRename (path +:+ ".tmp") path ] /\
  logged (save t path a w) = logged w ++ [LogSaved path (length (savedata t))].
Proof.
  intros Hd Hw Hrn. pose proof (tmp_differs path) as Htmp.
  rewrite files_lookup, save_eq by exact Hd. rewrite Hw, Hrn. cbn [names inodes calls logged].
  split; [| now split].
  case_bool_decide as Hsame.
  - rewrite lookup_insert_ne by exact Htmp. rewrite Hsame. cbn. apply lookup_insert_eq.
  - rewrite lookup_insert_eq. cbn. apply lookup_insert_eq.
Qed.



End SaveNames.

(** ** The run loop *)

Section LoopFacts.
Variable saveFile : string.

(** An event is not in a list that starts with other events. *)
Ltac absent :=
  repeat (apply not_elem_of_cons; split; [discriminate |]);
  first [assumption | apply not_elem_of_nil].

Lemma pass_running (p p1 : Proc) (evs : list Event) :
  pass saveFile p evs p1 -> returned p = false.
Proof. now destruct 1. Qed.

Lemma arrives_running (p p1 : Proc) (e : Event) :
  arrives p e p1 ->
  returned p1 = false /\ stage p1 = stage p /\ engine p1 = engine p /\
  world p1 = world p /\ arrival e = true /\ (ctxDone p = true -> ctxDone p1 = true).
Proof. destruct 1; repeat split; auto. Qed.

(** Nothing happens once [main] has returned. *)
Lemma run_returned (p p' : Proc) (tr : list Event) :
  run saveFile p tr p' -> returned p = true -> tr = [] /\ p' = p.
Proof.
  destruct 1 as [p | p e p1 tr p2 Ha _ | p evs p1 tr p2 Hp _]; intros Hret.
  - now split.
  - destruct Ha; congruence.
  - apply pass_running in Hp. congruence.
Qed.

(** Every state before the return has a step of the program. *)
Lemma pass_possible (p : Proc) :
  returned p = false -> exists evs p1, pass saveFile p evs p1.
Proof.
  intros Hrun. destruct (stage p) eqn:Es.
  - destruct (ctxDone p) eqn:Hd; [| destruct (saveTickReady p) eqn:Ht].
    + eexists _, _.
      apply (pass_shutdown saveFile p
               {| onWrite := WriteDone; renameFails := false; removeFails := false |});
        assumption.
    + eexists _, _.
      apply (pass_save saveFile p
               {| onWrite := WriteDone; renameFails := false; removeFails := false |});
        assumption.
    + eexists _, _. apply (pass_default saveFile p); assumption.
  - eexists _, _. apply (pass_iterate saveFile p (engine p)); assumption.
  - eexists _, _. apply (pass_sleep saveFile p); assumption.
Qed.

Lemma run_until_return (p p' : Proc) (tr : list Event) :
  run saveFile p tr p' -> returned p = false -> returned p' = true ->
  exists pre q a,
    tr = pre ++ [EvShutdown; EvSave; EvReturn] /\
    (EvShutdown ∉ pre) /\ (EvReturn ∉ pre) /\
    (ctxDone p = false -> EvSignal ∈ pre) /\
    run saveFile p pre q /\ ctxDone q = true /\
    world p' = save (engine q) saveFile a (world q) /\ engine p' = engine q.
Proof.
  induction 1 as [p | p e p1 tr p2 Ha Hrun IH | p evs p1 tr p2 Hp Hrun IH];
    intros Hrun0 Hret.
  - congruence.
  - assert (returned p1 = false) as Hp1 by (destruct Ha; reflexivity).
    destruct (IH Hp1 Hret) as (pre & q & a & -> & Hs & Hr & Hsig & Hq & Hdq & Hw & He).
    exists (e :: pre), q, a. split; [reflexivity |].
    split; [destruct Ha; absent |]. split; [destruct Ha; absent |].
    split; [| split; [now apply (run_arrival saveFile p e p1) | auto]].
    intros Hd. destruct Ha as [p _ | p _]; [left |].
    right. now apply Hsig.
  - destruct Hp as [p a H H0 Hd | p a H H0 H1 | p H H0 Hd H1 | p t' H H0 | p H H0].
    + destruct (run_returned _ _ _ Hrun eq_refl) as [-> ->].
      exists [], p, a. split; [reflexivity |].
      split; [absent |]. split; [absent |].
      split; [congruence |]. split; [apply run_stop |]. auto.
    + destruct (IH eq_refl Hret) as (pre & q & b & -> & Hs & Hr & Hsig & Hq & Hdq & Hw & He).
      exists (EvSave :: pre), q, b. split; [reflexivity |].
      split; [absent |]. split; [absent |].
      split; [intros Hd; right; now apply Hsig |].
      split; [| auto].
      now apply (run_pass saveFile p [EvSave] _ pre q (pass_save saveFile p a H H0 H1)).
    + destruct (IH eq_refl Hret) as (pre & q & b & -> & Hs & Hr & Hsig & Hq & Hdq & Hw & He).
      exists pre, q, b. split; [reflexivity |].
      split; [exact Hs |]. split; [exact Hr |].
      split; [intros _; now apply Hsig |].
      split; [| auto].
      now apply (run_pass saveFile p [] _ pre q (pass_default saveFile p H H0 Hd H1)).
    + destruct (IH eq_refl Hret) as (pre & q & b & -> & Hs & Hr & Hsig & Hq & Hdq & Hw & He).
      exists (EvIterate :: pre), q, b. split; [reflexivity |].
      split; [absent |]. split; [absent |].
      split; [intros Hd; right; now apply Hsig |].
      split; [| auto].
      now apply (run_pass saveFile p [EvIterate] _ pre q (pass_iterate saveFile p t' H H0)).
    + destruct (IH eq_refl Hret) as (pre & q & b & -> & Hs & Hr & Hsig & Hq & Hdq & Hw & He).
      exists (EvSleep :: pre), q, b. split; [reflexivity |].
      split; [absent |]. split; [absent |].
      split; [intros Hd; right; now apply Hsig |].
      split; [| auto].
      now apply (run_pass saveFile p [EvSleep] _ pre q (pass_sleep saveFile p H H0)).
Qed.



(** Once the signal is there the program makes few steps before it is back
    at the [select] with nothing but the shutdown to take: each step uses up
    what is owed, and only a tick of the save timer adds to it. *)
Lemma run_steps_owed (p p' : Proc) (tr : list Event) :
  run saveFile p tr p' -> ctxDone p = true -> returned p' = false ->
  countProgram tr + owed p' <= owed p + countEvent EvTimer tr.
Proof.
  induction 1 as [p | p e p1 tr p2 Ha Hrun IH | p evs p1 tr p2 Hp Hrun IH];
    intros Hd Hret.
  - cbn. lia.
  - destruct Ha as [p H | p H]; unfold owed in *;
      cbn [countProgram countEvent sameEvent arrival ctxDone saveTickReady stage] in *;
      specialize (IH ltac:(first [reflexivity | assumption]) Hret);
      destruct (saveTickReady p); lia.
  - destruct Hp as [p a H H0 Hd' | p a H H0 H1 | p H H0 Hd' H1 | p t' H H0 | p H H0].
    + destruct (run_returned _ _ _ Hrun eq_refl) as [_ ->]. discriminate.
    + specialize (IH Hd Hret). unfold owed in *.
      cbn [app countProgram countEvent sameEvent arrival ctxDone saveTickReady stage] in *.
      rewrite H0, H1. lia.
    + congruence.
    + specialize (IH Hd Hret). unfold owed in *.
      cbn [app countProgram countEvent sameEvent arrival ctxDone saveTickReady stage] in *.
      rewrite H0. lia.
    + specialize (IH Hd Hret). unfold owed in *.
      cbn [app countProgram countEvent sameEvent arrival ctxDone saveTickReady stage] in *.
      rewrite H0. lia.
Qed.


(** From every state where the signal is there the return can be reached,
    with one call of [save] and at most the tick that was chosen. *)
Lemma exit_reachable (p : Proc) :
  returned p = false -> ctxDone p = true ->
  exists tr p',
    run saveFile p tr p' /\ returned p' = true /\
    countEvent EvSave tr = 1 /\ countProgram tr <= 5.
Proof.
  intros Hrun Hd.
  assert (forall q, returned q = false -> ctxDone q = true -> stage q = AtSelect ->
          exists p', run saveFile q [EvShutdown; EvSave; EvReturn] p' /\ returned p' = true)
    as Hsel.
  { intros q Hq Hdq Hsq. eexists. split.
    - eapply (run_pass _ _ [EvShutdown; EvSave; EvReturn] _ []);
        [apply (pass_shutdown saveFile q
                  {| onWrite := WriteDone; renameFails := false; removeFails := false |});
         assumption | apply run_stop].
    - reflexivity. }
  assert (forall q, returned q = false -> ctxDone q = true -> stage q = TickDone ->
          exists p', run saveFile q [EvSleep; EvShutdown; EvSave; EvReturn] p' /\
                     returned p' = true) as Hdone.
  { intros q Hq Hdq Hsq.
    destruct (Hsel {| engine := engine q; world := world q; ctxDone := ctxDone q;
                      saveTickReady := saveTickReady q; stage := AtSelect;
                      returned := false |} eq_refl Hdq eq_refl) as (p' & Hr & Hret).
    exists p'. split; [| exact Hret].
    now apply (run_pass _ _ [EvSleep] _ _ _ (pass_sleep saveFile q Hq Hsq)). }
  destruct (stage p) eqn:Es.
  - destruct (Hsel p Hrun Hd Es) as (p' & Hr & Hret).
    exists [EvShutdown; EvSave; EvReturn], p'. repeat split; [exact Hr | exact Hret | cbn; lia].
  - destruct (Hdone {| engine := engine p; world := world p; ctxDone := ctxDone p;
                       saveTickReady := saveTickReady p; stage := TickDone;
                       returned := false |} eq_refl Hd eq_refl) as (p' & Hr & Hret).
    exists [EvIterate; EvSleep; EvShutdown; EvSave; EvReturn], p'.
    repeat split; [| exact Hret | cbn; lia].
    now apply (run_pass _ _ [EvIterate] _ _ _ (pass_iterate saveFile p (engine p) Hrun Es)).
  - destruct (Hdone p Hrun Hd Es) as (p' & Hr & Hret).
    exists [EvSleep; EvShutdown; EvSave; EvReturn], p'.
    repeat split; [exact Hr | exact Hret | cbn; lia].
Qed.

End LoopFacts.

Lemma exampleTrace_runs : run "/data/bot.tox" startProc exampleTrace lastProc.
Proof.
  unfold exampleTrace.
  eapply (run_pass _ _ [] _ _); [apply pass_default; reflexivity |].
  eapply (run_pass _ _ [EvIterate] _ _); [apply (pass_iterate _ _ exampleTox); reflexivity |].
  eapply run_arrival; [apply arrives_signal; reflexivity |].
  eapply (run_pass _ _ [EvSleep] _ _); [apply pass_sleep; reflexivity |].
  eapply run_arrival; [apply arrives_timer; reflexivity |].
  eapply (run_pass _ _ [EvSave] _ _); [apply (pass_save _ _ fine); reflexivity |].
  eapply (run_pass _ _ [EvShutdown; EvSave; EvReturn] _ []);
    [apply (pass_shutdown _ _ fine); reflexivity |].
  apply run_stop.
Qed.

(** ** The claims *)

(** C1: the handler trims the message and dispatches on the trimmed text:
    "/ping" is answered by "pong", "/id" by "my tox id: " followed by the
    bot's own address, and any other text by "echo: " followed by the
    message as it came, untrimmed.  The answer is the one message the
    handler sends, to the friend the message came from. *)
Theorem C1_dispatch_on_trimmed_text (t : Tox) (friend : N) (message : string) :
  (TrimSpace message = "/ping" ->
   outbox (onFriendMessage t friend message) = outbox t ++ [(friend, "pong")]) /\
  (TrimSpace message = "/id" ->
   outbox (onFriendMessage t friend message) =
   outbox t ++ [(friend, "my tox id: " +:+ selfAddress t)]) /\
  (TrimSpace message <> "/ping" -> TrimSpace message <> "/id" ->
   outbox (onFriendMessage t friend message) =
   outbox t ++ [(friend, "echo: " +:+ message)]).
Proof.
  unfold onFriendMessage.
  repeat split.
  - intros ->. reflexivity.
  - intros ->. reflexivity.
  - intros Hping Hid.
    destruct (String.eqb_spec (TrimSpace message) "/ping") as [E | _]; [contradiction |].
    destruct (String.eqb_spec (TrimSpace message) "/id") as [E | _]; [contradiction |].
    reflexivity.
Qed.

Lemma C1_dispatch_witness :
  outbox (onFriendMessage (bot "76518406F6A9") 3 (" /ping" +:+ bytes [10]))
    = [(3%N, "pong")] /\
  outbox (onFriendMessage (bot "76518406F6A9") 3 "/id  ")
    = [(3%N, "my tox id: 76518406F6A9")] /\
  outbox (onFriendMessage (bot "76518406F6A9") 3 "/ping me ")
    = [(3%N, "echo: /ping me ")].
Proof.
  split; [| split].
  - apply (C1_dispatch_on_trimmed_text (bot "76518406F6A9") 3 (" /ping" +:+ bytes [10])).
    reflexivity.
  - apply (C1_dispatch_on_trimmed_text (bot "76518406F6A9") 3 "/id  ").
    reflexivity.
  - apply (C1_dispatch_on_trimmed_text (bot "76518406F6A9") 3 "/ping me ");
      vm_compute; discriminate.
Defined.

(** C2, as the code has it: the message "  hello  " is answered by "echo: "
    followed by the message with its two spaces on each side. *)
Theorem C2_echo_keeps_the_spaces (t : Tox) (friend : N) :
  outbox (onFriendMessage t friend "  hello  ") =
  outbox t ++ [(friend, "echo:   hello  ")].
Proof. reflexivity. Qed.

(** C2 as stated fails: the answer to "  hello  " is not "echo: hello". *)
Lemma C2_reply_is_not_trimmed :
  outbox (onFriendMessage (bot "76518406F6A9") 3 "  hello  ") <>
  outbox (bot "76518406F6A9") ++ [(3%N, "echo: hello")].
Proof. vm_compute. discriminate. Qed.

(** C3, as the code has it: the nodes returned for an input are those of its
    valid entries, one each and in the order of the input, where the entries
    are the comma-separated pieces of the trimmed input, each trimmed, and
    an entry is valid when it has at least three colon-separated fields, its
    second field with the white space around it trimmed parses as an unsigned
    16-bit integer, and the rejoined rest with the white space around it
    trimmed and its spaces taken out decodes as hexadecimal.  The node of a
    valid entry carries the first field trimmed, the number of the port, and
    that key.  An entry that is not valid contributes nothing and leaves the
    nodes of the others as they are. *)
Theorem C3_nodes_of_valid_entries (s : string) :
  parseBootstrapEnv s =
    ParserSpec.node TrimSpace
      <$> List.filter (ParserSpec.valid TrimSpace) (ParserSpec.entries s)
  /\ forall entry, ParserSpec.valid TrimSpace entry = true ->
       let n := ParserSpec.node TrimSpace entry in
       host n = TrimSpace (nth 0 (Split entry ":") "") /\
       ParseUint10 (TrimSpace (nth 1 (Split entry ":") "")) 16 = inr (port n) /\
       (port n < 2 ^ 16)%N /\
       key n = ReplaceAll (TrimSpace (Join (drop 2 (Split entry ":")) ":")) " " "" /\
       exists bs, DecodeString (key n) = inr bs.
Proof.
  split; [apply parseBootstrapEnv_refines |].
  intros entry Hv n. subst n.
  unfold ParserSpec.valid in Hv.
  apply andb_true_iff in Hv as [Hv Hkey]. apply andb_true_iff in Hv as [_ Hport].
  unfold ParserSpec.node, ParserSpec.portOf, ParserSpec.hostOf, ParserSpec.keyOf,
    ParserSpec.fields in *. cbn [host port key].
  destruct (ParseUint10 (TrimSpace (nth 1 (Split entry ":") "")) 16) as [e | p] eqn:Ep;
    [discriminate |].
  destruct (DecodeString _) as [e | bs] eqn:Ek; [discriminate |].
  repeat split; try reflexivity.
  - pose proof (ParseUint10_uint16 _ _ Ep) as Hm.
    rewrite <- Hm. apply N.mod_lt. discriminate.
  - now exists bs.
Qed.

Lemma C3_nodes_witness :
  ParserSpec.valid TrimSpace "tox.example.org : 33445 : AB cd" = true /\
  host (ParserSpec.node TrimSpace "tox.example.org : 33445 : AB cd") = "tox.example.org" /\
  port (ParserSpec.node TrimSpace "tox.example.org : 33445 : AB cd") = 33445%N /\
  key (ParserSpec.node TrimSpace "tox.example.org : 33445 : AB cd") = "ABcd".
Proof.
  assert (ParserSpec.valid TrimSpace "tox.example.org : 33445 : AB cd" = true) as Hv
    by reflexivity.
  split; [exact Hv |].
  destruct (C3_nodes_of_valid_entries "") as [_ H].
  destruct (H "tox.example.org : 33445 : AB cd" Hv) as (Hh & _ & _ & Hk & _).
  split; [rewrite Hh; reflexivity |].
  split; [reflexivity |].
  rewrite Hk. reflexivity.
Defined.

(** C3 as stated fails: with the fields taken as they stand in the entry, the
    first input below would give a node whose host ends in a space, and the
    entry of the second would not be valid, its port field being " 33445". *)
Lemma C3_fields_are_not_exact :
  parseBootstrapEnv "tox.example.org :33445:ABCD"
    <> ParserSpec.parseExact "tox.example.org :33445:ABCD" /\
  parseBootstrapEnv "tox.example.org: 33445:ABCD"
    <> ParserSpec.parseExact "tox.example.org: 33445:ABCD".
Proof. split; vm_compute; discriminate. Qed.

(** C4: when the bootstrap string is empty (or the variable is not set), is
    made of white space only, or has no entry that the parser accepts, the
    resolved list of nodes is the built-in pair. *)
Theorem C4_defaults_when_nothing_parses (env : gmap string string) :
  let s := Getenv env "TOX_BOOTSTRAP_NODES" in
  s = "" \/ blank s \/
  Forall (fun item => parseBootstrapItem [] item = []) (Split (TrimSpace s) ",") ->
  Root.resolveNodes env =
    [ {| host := "tox.abilinski.com"; port := 33445;
         key := "10C00EB250C3233E343E2AEBA07115A5C28920E9C8D29492F6D00B29049EDC7E" |};
      {| host := "144.217.167.73"; port := 33445;
         key := "7E5668E0EE09E19F320AD47902419331FFEE147BB3606769CFBE921A2A2FD34C" |} ].
Proof.
  intros s H. unfold Root.resolveNodes. fold s.
  enough (parseBootstrapEnv s = []) as -> by reflexivity.
  unfold parseBootstrapEnv.
  destruct H as [-> | [Hb | Hall]].
  - reflexivity.
  - now rewrite (TrimSpace_blank s Hb).
  - destruct (String.eqb (TrimSpace s) ""); [reflexivity |].
    now apply parse_loop_nothing.
Qed.

Lemma C4_defaults_witness :
  Root.resolveNodes ∅ = defaultBootstrap /\
  Root.resolveNodes {[ "TOX_BOOTSTRAP_NODES" := bytes [32; 9; 226; 128; 131; 10] ]}
    = defaultBootstrap /\
  Root.resolveNodes {[ "TOX_BOOTSTRAP_NODES" := "nokey:33445, a.org:70000:AB ,b.org:1:xyz" ]}
    = defaultBootstrap.
Proof.
  split; [| split].
  - apply (C4_defaults_when_nothing_parses ∅). left. reflexivity.
  - apply (C4_defaults_when_nothing_parses
             {[ "TOX_BOOTSTRAP_NODES" := bytes [32; 9; 226; 128; 131; 10] ]}).
    right; left. unfold Getenv. rewrite lookup_singleton_eq. cbn [default].
    apply (blank_rune (bytes [32])); [apply list_elem_of_In; vm_compute; tauto |].
    apply (blank_rune (bytes [9])); [apply list_elem_of_In; vm_compute; tauto |].
    apply (blank_rune (bytes [226; 128; 131])); [apply list_elem_of_In; vm_compute; tauto |].
    apply (blank_rune (bytes [10]) ""); [apply list_elem_of_In; vm_compute; tauto |].
    apply blank_empty.
  - apply (C4_defaults_when_nothing_parses
             {[ "TOX_BOOTSTRAP_NODES" := "nokey:33445, a.org:70000:AB ,b.org:1:xyz" ]}).
    right; right. unfold Getenv. rewrite lookup_singleton_eq. cbn [default].
    set (items := Split _ _). vm_compute in items. subst items.
    repeat (apply Forall_cons; split; [vm_compute; reflexivity |]).
    constructor.
Defined.

(** C5: when the engine's state blob is empty, [save] calls nothing of the
    file system and leaves every file as it was, so that no temporary file
    appears and the file at the save path keeps its bytes. *)
Theorem C5_empty_state_writes_nothing
    (t : Tox) (path : string) (a : Answers) (w : World) :
  savedata t = [] ->
  files (save t path a w) = files w /\ calls (save t path a w) = calls w.
Proof. intros H. unfold save. rewrite H. split; reflexivity. Qed.

Lemma C5_empty_state_witness :
  files (save (bot "76518406F6A9") "/data/bot.tox"
           {| onWrite := WriteDone; renameFails := false; removeFails := false |}
           exampleWorld) = files exampleWorld /\
  calls (save (bot "76518406F6A9") "/data/bot.tox"
           {| onWrite := WriteDone; renameFails := false; removeFails := false |}
           exampleWorld) = [].
Proof.
  apply (C5_empty_state_writes_nothing (bot "76518406F6A9") "/data/bot.tox"
           {| onWrite := WriteDone; renameFails := false; removeFails := false |}
           exampleWorld).
  reflexivity.
Defined.




(** C7: every execution of the loop that ends with the return of [main]
    ends with the shutdown case, one call of [save] and the return, and has
    no other shutdown or return before: the files at the end are those that
    this one call of [save] makes of the files and of the engine the loop
    had when it took the shutdown case, whatever came before, a periodic
    save included.  The shutdown case is taken only after a signal was
    delivered (when the context was not yet cancelled at the start); at a
    [select] where the signal is there it can be taken, and it is the only
    step possible unless a tick of the save timer waits too.  The loop is
    never stuck before the return; once the signal is there, the steps it
    makes without returning are at most those it owed when the signal came
    (the rest of a tick under way, a periodic save that waited) and one for
    each later tick of the save timer; and the return can always be reached
    from there with one call of [save]. *)
Theorem C7_one_final_save (saveFile : string) (p p' : Proc) (tr : list Event) :
  (returned p = false -> run saveFile p tr p' -> returned p' = true ->
     exists pre q a,
       tr = pre ++ [EvShutdown; EvSave; EvReturn] /\
       (EvShutdown ∉ pre) /\ (EvReturn ∉ pre) /\
       (ctxDone p = false -> EvSignal ∈ pre) /\
       run saveFile p pre q /\ ctxDone q = true /\
       world p' = save (engine q) saveFile a (world q) /\ engine p' = engine q) /\
  (returned p = false -> stage p = AtSelect -> ctxDone p = true ->
     (exists p1, pass saveFile p [EvShutdown; EvSave; EvReturn] p1 /\ returned p1 = true) /\
     (saveTickReady p = false ->
        forall evs p1, pass saveFile p evs p1 -> evs = [EvShutdown; EvSave; EvReturn])) /\
  (returned p = false -> exists evs p1, pass saveFile p evs p1) /\
  (run saveFile p tr p' -> ctxDone p = true -> returned p' = false ->
     countProgram tr + owed p' <= owed p + countEvent EvTimer tr) /\
  (returned p = false -> ctxDone p = true ->
     exists tr1 p1,
       run saveFile p tr1 p1 /\ returned p1 = true /\
       countEvent EvSave tr1 = 1 /\ countProgram tr1 <= 5).
Proof.
  split; [| split; [| split; [| split]]].
  - intros Hrun0 Hrun Hret. now apply (run_until_return saveFile p p' tr).
  - intros Hrun0 Hs Hd. split.
    + eexists. split.
      * apply (pass_shutdown saveFile p
                 {| onWrite := WriteDone; renameFails := false; removeFails := false |});
          assumption.
      * reflexivity.
    + intros Ht evs p1 Hp.
      destruct Hp as [p a H H0 Hd' | p a H H0 H1 | p H H0 Hd' H1 | p t' H H0 | p H H0];
        congruence.
  - apply pass_possible.
  - apply run_steps_owed.
  - apply exit_reachable.
Qed.

Lemma C7_one_final_save_witness :
  (exists pre q a,
     exampleTrace = pre ++ [EvShutdown; EvSave; EvReturn] /\
     (EvShutdown ∉ pre) /\ (EvReturn ∉ pre) /\
     (ctxDone startProc = false -> EvSignal ∈ pre) /\
     run "/data/bot.tox" startProc pre q /\ ctxDone q = true /\
     world lastProc = save (engine q) "/data/bot.tox" a (world q) /\
     engine lastProc = engine q) /\
  countProgram [EvIterate; EvSleep] + owed tickServed <=
    owed tickInFlight + countEvent EvTimer [EvIterate; EvSleep].
Proof.
  split.
  - apply (proj1 (C7_one_final_save "/data/bot.tox" startProc lastProc exampleTrace)).
    + reflexivity.
    + exact exampleTrace_runs.
    + reflexivity.
  - apply (proj1 (proj2 (proj2 (proj2
             (C7_one_final_save "/data/bot.tox" tickInFlight tickServed
                [EvIterate; EvSleep]))))).
    + eapply (run_pass _ _ [EvIterate] _ _);
        [apply (pass_iterate _ _ exampleTox); reflexivity |].
      eapply (run_pass _ _ [EvSleep] _ []); [apply pass_sleep; reflexivity |].
      apply run_stop.
    + reflexivity.
    + reflexivity.
Defined.




(** C9 fails on the code: with TOX_BOOTSTRAP_NODES set to one valid entry the
    root entry point bootstraps against that node, and the entry point under
    cmd/ against the built-in pair, which it does not take from the
    environment. *)
Theorem C9_entry_points_differ :
  bootstrapped (Root.bootstrapAll exampleEnv (bot "76518406F6A9")) =
    [ ("tox.example.org", 33445%N, "ABCD") ] /\
  bootstrapped (Cmd.bootstrapAll exampleEnv (bot "76518406F6A9")) =
    [ ("tox.abilinski.com", 33445%N,
       "10C00EB250C3233E343E2AEBA07115A5C28920E9C8D29492F6D00B29049EDC7E");
      ("144.217.167.73", 33445%N,
       "7E5668E0EE09E19F320AD47902419331FFEE147BB3606769CFBE921A2A2FD34C") ] /\
  bootstrapped (Root.bootstrapAll exampleEnv (bot "76518406F6A9")) <>
  bootstrapped (Cmd.bootstrapAll exampleEnv (bot "76518406F6A9")).
Proof.
  assert (Getenv exampleEnv "TOX_BOOTSTRAP_NODES" = "tox.example.org:33445:ABCD") as Henv.
  { unfold Getenv, exampleEnv. now rewrite lookup_singleton_eq. }
  assert (bootstrapped (Root.bootstrapAll exampleEnv (bot "76518406F6A9")) =
            [ ("tox.example.org", 33445%N, "ABCD") ]) as Hroot.
  { unfold Root.bootstrapAll, Root.resolveNodes. rewrite Henv. reflexivity. }
  split; [exact Hroot |]. split; [reflexivity |].
  rewrite Hroot. vm_compute. discriminate.
Qed.

(** C10: an entry with more than three colon-separated fields is turned
    down, since the fields after the second, rejoined with colons, hold a
    colon that neither the trimming nor the removal of spaces takes away,
    and a string with a colon does not decode as hexadecimal.  Hence no node
    that the parser returns has a colon in its key. *)
Theorem C10_no_colon_in_keys :
  (forall (out : list bootstrapNode) (item : string),
      (3 < length (Split (TrimSpace item) ":"))%nat ->
      parseBootstrapItem out item = out) /\
  (forall (s : string) (n : bootstrapNode),
      n ∈ parseBootstrapEnv s -> hasByte ":" (key n) = false).
Proof.
  split.
  - intros out item Hlen. unfold parseBootstrapItem.
    destruct (String.eqb (TrimSpace item) ""); [reflexivity |].
    destruct (Split (TrimSpace item) ":") as [| f0 [| f1 [| f2 [| f3 rest]]]];
      simpl in Hlen; try lia.
    cbn [length Nat.ltb Nat.leb nth drop].
    destruct (ParseUint10 (TrimSpace f1) 16) as [e | p]; [reflexivity |].
    destruct (DecodeString _) as [e | bs] eqn:Ek; [reflexivity |].
    apply DecodeString_colon in Ek.
    rewrite ReplaceAll_colon, TrimSpace_colon, Join_colon in Ek. discriminate.
  - intros s n Hn. rewrite parseBootstrapEnv_refines in Hn.
    unfold ParserSpec.parseTrimmed, ParserSpec.parse in Hn.
    apply list_elem_of_fmap in Hn as (entry & -> & Hentry).
    apply list_elem_of_In, filter_In in Hentry as [_ Hv].
    unfold ParserSpec.valid in Hv. apply andb_true_iff in Hv as [_ Hk].
    cbn [ParserSpec.node key].
    destruct (DecodeString (ParserSpec.keyOf TrimSpace entry)) as [e | bs] eqn:Ek;
      [discriminate |].
    now apply DecodeString_colon in Ek.
Qed.

Lemma C10_no_colon_witness :
  parseBootstrapItem defaultBootstrap "tox.example.org:33445:AB:CD" = defaultBootstrap /\
  hasByte ":" "ABCD" = false.
Proof.
  split.
  - apply (proj1 C10_no_colon_in_keys). vm_compute. lia.
  - apply (proj2 C10_no_colon_in_keys "tox.example.org:33445:ABCD"
             {| host := "tox.example.org"; port := 33445; key := "ABCD" |}).
    vm_compute. left.
Defined.

(** ** Further properties of [save] *)







(** X4: every call of [save] writes one line to the log, and its calls to
    the file system are the first few of: write the temporary file, rename
    it, remove it; so the rename is never tried without the write before it,
    nor the removal without the rename. *)
Theorem save_calls_in_order (t : Tox) (path : string) (a : Answers) (w : World) :
  length (logged (save t path a w)) = S (length (logged w)) /\
  exists k, calls (save t path a w) = calls w ++ take k (saveCalls path (savedata t)).
Proof.
  unfold saveCalls.
  assert (savedata t = [] \/ savedata t <> []) as [Ed | Ed]
    by (destruct (savedata t); [now left | now right]).
  { unfold save. rewrite Ed. cbn [length Nat.eqb logPrintf logged calls].
    split; [rewrite List.length_app; cbn; lia |].
    exists 0%nat. cbn. now rewrite app_nil_r. }
  rewrite save_eq by exact Ed.
  destruct (onWrite a) as [| | n]; cbn [logged calls].
  - destruct (renameFails a); cbn [logged calls];
      (split; [rewrite List.length_app; cbn; lia |]).
    + now exists 3%nat.
    + now exists 2%nat.
  - split; [rewrite List.length_app; cbn; lia |]. now exists 1%nat.
  - split; [rewrite List.length_app; cbn; lia |]. now exists 1%nat.
Qed.





(** X7: what a [save] that went through has written is what the next start
    reads back and hands to the engine, when the read succeeds; and a [save]
    of an empty state changes nothing of what the next start reads. *)
Theorem save_then_load (t : Tox) (path : string) (a : Answers) (w : World) (rd : bool) :
  (savedata t <> [] -> onWrite a = WriteDone -> renameFails a = false ->
   loadedSavedata false path (save t path a w) = Some (savedata t)) /\
  (savedata t = [] ->
   loadedSavedata rd path (save t path a w) = loadedSavedata rd path w).
Proof.
  split.
  - intros Hd Hw Hrn.
    destruct (save_done t path a w Hd Hw Hrn) as (Hp & _).
    unfold loadedSavedata, LoadSavedata. rewrite Hp.
    destruct (savedata t); [contradiction | reflexivity].
  - intros Hd. unfold loadedSavedata, LoadSavedata, save. now rewrite Hd.
Qed.

Lemma save_then_load_witness :
  loadedSavedata false "/data/bot.tox" (save exampleTox "/data/bot.tox" fine exampleWorld)
    = Some ["n"; "e"; "w"; "!"]%char.
Proof.
  apply (save_then_load exampleTox "/data/bot.tox" fine exampleWorld false);
    [discriminate | reflexivity | reflexivity].
Defined.

(** ** Further properties of the run loop *)

(** X8: once the signal is there the engine is ticked at most once more,
    and only when the loop had taken the default of its [select] before the
    signal came and not yet made that tick: an execution that starts with
    the context cancelled has one [t.Iterate()] at most in that case and
    none otherwise, and the context stays cancelled. *)
Theorem no_tick_after_signal (saveFile : string) (p p' : Proc) (tr : list Event) :
  run saveFile p tr p' -> ctxDone p = true ->
  countEvent EvIterate tr <= (match stage p with TickChosen => 1 | _ => 0 end) /\
  (stage p <> TickChosen -> EvIterate ∉ tr) /\
  ctxDone p' = true.
Proof.
  intros Hrun Hd.
  assert (countEvent EvIterate tr <= (match stage p with TickChosen => 1 | _ => 0 end) /\
          ctxDone p' = true) as [Hc Hd'].
  { induction Hrun as [p | p e p1 tr p2 Ha Hrun IH | p evs p1 tr p2 Hp Hrun IH].
    - split; [cbn; lia | exact Hd].
    - destruct (arrives_running _ _ _ Ha) as (_ & Hs & _ & _ & _ & Hd1).
      destruct (IH (Hd1 Hd)) as [IHc IHd]. split; [| exact IHd].
      rewrite Hs in IHc.
      destruct Ha; cbn [countEvent sameEvent] in *; lia.
    - destruct Hp as [p a H H0 Hd' | p a H H0 H1 | p H H0 Hd' H1 | p t' H H0 | p H H0];
        [| | congruence | |];
        destruct (IH ltac:(first [reflexivity | exact Hd])) as [IHc IHd];
        (split; [| exact IHd]); rewrite H0;
        cbn [app countEvent sameEvent stage] in *; lia. }
  split; [exact Hc |]. split; [| exact Hd'].
  intros Hs Hin.
  assert (countEvent EvIterate tr = 0) as Hz by (destruct (stage p); [lia | congruence | lia]).
  clear - Hin Hz. induction tr as [| x tr IH]; [now apply elem_of_nil in Hin |].
  apply elem_of_cons in Hin. cbn [countEvent] in Hz.
  destruct Hin as [<- | Hin]; [cbn in Hz; lia | apply IH; [exact Hin | lia]].
Qed.

Lemma no_tick_after_signal_witness :
  countEvent EvIterate [EvIterate; EvSleep] <= 1 /\
  (stage bothPending <> TickChosen -> EvIterate ∉ [EvSave; EvShutdown; EvSave; EvReturn]).
Proof.
  split.
  - apply (no_tick_after_signal "/data/bot.tox" tickInFlight tickServed
             [EvIterate; EvSleep]); [| reflexivity].
    eapply (run_pass _ _ [EvIterate] _ _);
      [apply (pass_iterate _ _ exampleTox); reflexivity |].
    eapply (run_pass _ _ [EvSleep] _ []); [apply pass_sleep; reflexivity |].
    apply run_stop.
  - apply (no_tick_after_signal "/data/bot.tox" bothPending lastProc
             [EvSave; EvShutdown; EvSave; EvReturn]); [| reflexivity].
    eapply (run_pass _ _ [EvSave]); [eapply (pass_save _ _ fine); reflexivity |].
    eapply (run_pass _ _ [EvShutdown; EvSave; EvReturn] _ []);
      [eapply (pass_shutdown _ _ fine); reflexivity |].
    apply run_stop.
Defined.

(** X9: the ticks of the save timer do not pile up: in every execution the
    calls of [save] are at most the ticks that arrived, one more when a tick
    waited at the start, and the one of the shutdown. *)
Theorem saves_bounded_by_ticks (saveFile : string) (p p' : Proc) (tr : list Event) :
  run saveFile p tr p' ->
  countEvent EvSave tr <=
    countEvent EvTimer tr + (if saveTickReady p then 1 else 0)
    + countEvent EvShutdown tr.
Proof.
  intros Hrun.
  enough (countEvent EvSave tr + (if saveTickReady p' then 1 else 0) <=
          countEvent EvTimer tr + (if saveTickReady p then 1 else 0)
          + countEvent EvShutdown tr) by lia.
  induction Hrun as [p | p e p1 tr p2 Ha Hrun IH | p evs p1 tr p2 Hp Hrun IH].
  - cbn. lia.
  - destruct Ha; cbn [countEvent sameEvent saveTickReady] in *;
      destruct (saveTickReady p), (saveTickReady p2); lia.
  - destruct Hp as [p a H H0 Hd | p a H H0 H1 | p H H0 Hd H1 | p t' H H0 | p H H0];
      cbn [app countEvent sameEvent saveTickReady] in *;
      try rewrite H1; destruct (saveTickReady p2); try destruct (saveTickReady p); lia.
Qed.

Lemma saves_bounded_by_ticks_witness :
  countEvent EvSave exampleTrace <= 1 + 0 + 1.
Proof.
  exact (saves_bounded_by_ticks "/data/bot.tox" startProc lastProc exampleTrace
           exampleTrace_runs).
Defined.



(** ** Further properties of the start-up and of the handler *)

Section StartFacts.

Lemma bootstrap_fold (nodes : list bootstrapNode) (t : Tox) :
  let t' := fold_left (fun t n => Bootstrap t (host n) (port n) (key n)) nodes t in
  bootstrapped t' = bootstrapped t ++ (attempt <$> nodes) /\
  selfAddress t' = selfAddress t /\ savedata t' = savedata t /\ outbox t' = outbox t.
Proof.
  revert t. induction nodes as [| n nodes IH]; intros t; cbn [fold_left fmap list_fmap].
  - now rewrite app_nil_r.
  - destruct (IH (Bootstrap t (host n) (port n) (key n))) as (Hb & Ha & Hs & Ho).
    cbn zeta in *. rewrite Hb, Ha, Hs, Ho. cbn [Bootstrap bootstrapped selfAddress savedata outbox].
    now rewrite <- app_assoc.
Qed.

(** What makes the parser return no node. *)
Lemma nothing_parses (s : string) :
  s = "" \/ blank s \/
  Forall (fun item => parseBootstrapItem [] item = []) (Split (TrimSpace s) ",") ->
  parseBootstrapEnv s = [].
Proof.
  unfold parseBootstrapEnv. intros [-> | [Hb | Hall]].
  - reflexivity.
  - now rewrite (TrimSpace_blank s Hb).
  - destruct (String.eqb (TrimSpace s) ""); [reflexivity |].
    now apply parse_loop_nothing.
Qed.

(** The node of a valid entry has a port of 16 bits and a key that decodes. *)
Lemma parsed_node_sound (s : string) (n : bootstrapNode) :
  n ∈ parseBootstrapEnv s ->
  (port n < 2 ^ 16)%N /\ exists bs, DecodeString (key n) = inr bs.
Proof.
  intros Hn. rewrite parseBootstrapEnv_refines in Hn.
  unfold ParserSpec.parseTrimmed, ParserSpec.parse in Hn.
  apply list_elem_of_fmap in Hn as (entry & -> & Hentry).
  apply list_elem_of_In, filter_In in Hentry as [_ Hv].
  unfold ParserSpec.valid in Hv.
  apply andb_true_iff in Hv as [Hv Hk]. apply andb_true_iff in Hv as [_ Hp].
  cbn [ParserSpec.node port key].
  destruct (ParserSpec.portOf TrimSpace entry) as [e | p] eqn:Ep; [discriminate |].
  destruct (DecodeString (ParserSpec.keyOf TrimSpace entry)) as [e | bs] eqn:Ek;
    [discriminate |].
  split; [| now exists bs].
  rewrite <- (ParseUint10_uint16 _ _ Ep). apply N.mod_lt. discriminate.
Qed.

End StartFacts.

(** X11: the root entry point always has a node to bootstrap against, and
    every node it resolves, taken from the environment or built in, has a
    port below 65536 and a key that decodes as hexadecimal. *)
Theorem resolved_nodes_usable (env : gmap string string) :
  Root.resolveNodes env <> [] /\
  Forall (fun n => (port n < 2 ^ 16)%N /\ exists bs, DecodeString (key n) = inr bs)
    (Root.resolveNodes env).
Proof.
  unfold Root.resolveNodes.
  destruct (parseBootstrapEnv (Getenv env "TOX_BOOTSTRAP_NODES")) as [| n nodes] eqn:E;
    cbn [length Nat.eqb].
  - split; [discriminate |].
    unfold defaultBootstrap.
    repeat (apply Forall_cons; split;
            [split; [reflexivity | eexists; vm_compute; reflexivity] |]).
    constructor.
  - split; [discriminate |].
    apply Forall_forall. intros m Hm.
    apply (parsed_node_sound (Getenv env "TOX_BOOTSTRAP_NODES")). now rewrite E.
Qed.

(** X12: the root entry point calls [t.Bootstrap] once for each resolved
    node, in their order, after the calls made before, and changes nothing
    else of the engine. *)
Theorem root_bootstraps_resolved_nodes (env : gmap string string) (t : Tox) :
  bootstrapped (Root.bootstrapAll env t) =
    bootstrapped t ++ (attempt <$> Root.resolveNodes env) /\
  selfAddress (Root.bootstrapAll env t) = selfAddress t /\
  savedata (Root.bootstrapAll env t) = savedata t /\
  outbox (Root.bootstrapAll env t) = outbox t.
Proof. unfold Root.bootstrapAll. apply (bootstrap_fold (Root.resolveNodes env) t). Qed.

(** X13: when TOX_BOOTSTRAP_NODES is empty or not set, is white space only,
    or has no entry that the parser accepts, the two entry points call
    [t.Bootstrap] with the same nodes in the same order. *)
Theorem entry_points_agree_on_defaults (env : gmap string string) (t : Tox) :
  let s := Getenv env "TOX_BOOTSTRAP_NODES" in
  s = "" \/ blank s \/
  Forall (fun item => parseBootstrapItem [] item = []) (Split (TrimSpace s) ",") ->
  bootstrapped (Root.bootstrapAll env t) = bootstrapped (Cmd.bootstrapAll env t).
Proof.
  intros s H. rewrite Cmd_ignores_environment.
  unfold Root.bootstrapAll.
  destruct (bootstrap_fold (Root.resolveNodes env) t) as [-> _].
  unfold Root.resolveNodes. fold s. now rewrite (nothing_parses s H).
Qed.

Lemma entry_points_agree_witness :
  bootstrapped (Root.bootstrapAll {[ "TOX_BOOTSTRAP_NODES" := "nokey:33445,,b.org:1:xyz" ]}
                  (bot "76518406F6A9")) =
  bootstrapped (Cmd.bootstrapAll {[ "TOX_BOOTSTRAP_NODES" := "nokey:33445,,b.org:1:xyz" ]}
                  (bot "76518406F6A9")).
Proof.
  apply (entry_points_agree_on_defaults
           {[ "TOX_BOOTSTRAP_NODES" := "nokey:33445,,b.org:1:xyz" ]} (bot "76518406F6A9")).
  right; right. unfold Getenv. rewrite lookup_singleton_eq. cbn [default].
  set (items := Split _ _). vm_compute in items. subst items.
  repeat (apply Forall_cons; split; [vm_compute; reflexivity |]).
  constructor.
Defined.

(** X14: [getenv] gives the default when the variable is not set, is empty
    or is white space only, and the trimmed value otherwise; with a default
    that is not empty its result is never empty. *)
Theorem getenv_default_or_trimmed (env : gmap string string) (k def : string) :
  (env !! k = None \/ blank (Getenv env k) -> getenv env k def = def) /\
  (TrimSpace (Getenv env k) <> "" -> getenv env k def = TrimSpace (Getenv env k)) /\
  (def <> "" -> getenv env k def <> "").
Proof.
  unfold getenv. repeat split.
  - intros [Hn | Hb].
    + unfold Getenv. now rewrite Hn.
    + now rewrite (TrimSpace_blank _ Hb).
  - intros Hne. now destruct (String.eqb_spec (TrimSpace (Getenv env k)) "").
  - intros Hd. now destruct (String.eqb_spec (TrimSpace (Getenv env k)) "").
Qed.

Lemma getenv_default_or_trimmed_witness :
  getenv ∅ "TOX_NAME" "go-tox-bot" = "go-tox-bot" /\
  getenv {[ "TOX_NAME" := " my bot " ]} "TOX_NAME" "go-tox-bot" = "my bot" /\
  getenv {[ "TOX_NAME" := "   " ]} "TOX_NAME" "go-tox-bot" <> "".
Proof.
  split; [| split].
  - apply (getenv_default_or_trimmed ∅ "TOX_NAME" "go-tox-bot"). now left.
  - rewrite (proj1 (proj2 (getenv_default_or_trimmed
                             {[ "TOX_NAME" := " my bot " ]} "TOX_NAME" "go-tox-bot"))).
    + unfold Getenv. rewrite lookup_singleton_eq. reflexivity.
    + unfold Getenv. rewrite lookup_singleton_eq. vm_compute. discriminate.
  - apply (getenv_default_or_trimmed {[ "TOX_NAME" := "   " ]} "TOX_NAME" "go-tox-bot").
    discriminate.
Defined.


(** ** Further properties of the parser *)

Section ParserMore.

Lemma DecodeString_shape (s : string) (out : list N) :
  DecodeString s = inr out ->
  allHex s = true /\ String.length s = (2 * length out)%nat.
Proof.
  revert out.
  enough (forall n s, (String.length s <= n)%nat ->
            forall out, DecodeString s = inr out ->
              allHex s = true /\ String.length s = (2 * length out)%nat) as H
    by (intros out; now apply (H (String.length s))).
  clear s. intros n. induction n as [| n IH]; intros s Hlen out.
  - destruct s; [| simpl in Hlen; lia]. cbn. intros [= <-]. now split.
  - destruct s as [| p [| q r]].
    + cbn. intros [= <-]. now split.
    + cbn. destruct (fromHexChar p); discriminate.
    + simpl in Hlen. cbn [DecodeString allHex].
      destruct (fromHexChar p) as [x |]; [| discriminate].
      destruct (fromHexChar q) as [y |]; [| discriminate].
      destruct (DecodeString r) as [e | o] eqn:Er; [discriminate |].
      intros [= <-]. destruct (IH r ltac:(lia) o Er) as [Hh Hl].
      split; [exact Hh |]. cbn [String.length length]. lia.
Qed.

Lemma allHex_even_decodes (s : string) :
  allHex s = true -> Nat.Even (String.length s) -> exists out, DecodeString s = inr out.
Proof.
  enough (forall n s, (String.length s <= n)%nat ->
            allHex s = true -> Nat.Even (String.length s) ->
            exists out, DecodeString s = inr out) as H
    by (now apply (H (String.length s))).
  clear s. intros n. induction n as [| n IH]; intros s Hlen Hh He.
  - destruct s; [| simpl in Hlen; lia]. now exists [].
  - destruct s as [| p [| q r]].
    + now exists [].
    + destruct He as [k Hk]. simpl in Hk. lia.
    + simpl in Hlen. cbn [allHex] in Hh. cbn [DecodeString].
      destruct (fromHexChar p) as [x |]; [| discriminate].
      destruct (fromHexChar q) as [y |]; [| discriminate].
      destruct (IH r ltac:(lia) Hh) as [o ->]; [| eauto].
      destruct He as [k Hk]. cbn [String.length] in Hk.
      exists (k - 1)%nat. lia.
Qed.

Lemma Split_nonempty (s : string) (c : ascii) : Split s c <> [].
Proof. destruct s as [| a s]; cbn; [discriminate |]. destruct (byteEq a c); [discriminate |]. now destruct (Split s c). Qed.

(** No piece of a split holds the separator, and none holds a byte that the
    string does not hold. *)
Lemma Split_pieces (s : string) (c d : ascii) :
  Forall (fun x => hasByte c x = false /\ (hasByte d s = false -> hasByte d x = false))
    (Split s c).
Proof.
  induction s as [| a s IH]; cbn [Split].
  - repeat constructor.
  - unfold byteEq at 1. case_bool_decide as Hac.
    + subst a. constructor; [now split |].
      eapply Forall_impl; [exact IH |]. cbn. intros x [Hx Hd]. split; [exact Hx |].
      intros H. apply orb_false_iff in H as [_ H]. now apply Hd.
    + pose proof (Split_nonempty s c) as Hne.
      destruct (Split s c) as [| h rest]; [contradiction |].
      apply Forall_cons in IH as [[Hh Hhd] IH].
      constructor.
      * cbn [hasByte]. unfold byteEq. rewrite bool_decide_eq_false_2 by exact Hac.
        split; [exact Hh |]. intros H. apply orb_false_iff in H as [H1 H2].
        now rewrite H1, (Hhd H2).
      * eapply Forall_impl; [exact IH |]. cbn. intros x [Hx Hd]. split; [exact Hx |].
        intros H. apply orb_false_iff in H as [_ H]. now apply Hd.
Qed.

Lemma TrimSpace_keeps_byte (c : ascii) (s : string) :
  Forall (fun r => hasByte c r = false) spaceRunes ->
  hasByte c (TrimSpace s) = hasByte c s.
Proof.
  intros Hc. unfold TrimSpace, TrimRightSpace, TrimLeftSpace.
  rewrite hasByte_rev, trimRunes_hasByte, hasByte_rev.
  - now apply trimRunes_hasByte.
  - apply Forall_fmap. eapply Forall_impl; [exact Hc |].
    cbn. intros r Hr. now rewrite hasByte_rev.
Qed.

Lemma spaceRunes_no_comma : Forall (fun r => hasByte "," r = false) spaceRunes.
Proof. unfold spaceRunes. repeat constructor. Qed.

Lemma first_piece (P : string -> Prop) (l : list string) :
  l <> [] -> Forall P l -> P (nth 0 l "").
Proof. destruct l; [contradiction |]. intros _ H. now apply Forall_cons in H as [H _]. Qed.

Lemma parseUintLoop_value (cutoff maxVal n p : N) (s : string) :
  parseUintLoop cutoff maxVal n s = inr p -> decimalValue n s = Some p.
Proof.
  revert n. induction s as [| c s IH]; intros n; cbn.
  - now intros [= ->].
  - destruct (decimalDigit c) as [d |]; [| discriminate].
    destruct (cutoff <=? n)%N; [discriminate |].
    destruct (maxVal <? n * 10 + d)%N; [discriminate |]. apply IH.
Qed.

Lemma decimalValue_grows (n p : N) (s : string) :
  decimalValue n s = Some p -> (n <= p)%N.
Proof.
  revert n. induction s as [| c s IH]; intros n; cbn.
  - intros [= ->]. lia.
  - destruct (decimalDigit c) as [d |]; [| discriminate].
    intros H. apply IH in H. lia.
Qed.

Lemma decimalValue_parses (cutoff maxVal n p : N) (s : string) :
  decimalValue n s = Some p -> (p <= maxVal)%N -> (maxVal < cutoff)%N ->
  parseUintLoop cutoff maxVal n s = inr p.
Proof.
  revert n. induction s as [| c s IH]; intros n; cbn.
  - now intros [= ->].
  - destruct (decimalDigit c) as [d |]; [| discriminate].
    intros Hv Hp Hc. pose proof (decimalValue_grows _ _ _ Hv) as Hg.
    destruct (N.leb_spec cutoff n); [lia |].
    destruct (N.ltb_spec maxVal (n * 10 + d)); [lia |]. now apply IH.
Qed.

End ParserMore.

(** X15: the key of every node the parser returns is made of hexadecimal
    digits only and has an even number of them. *)
Theorem parsed_key_is_hex (s : string) (n : bootstrapNode) :
  n ∈ parseBootstrapEnv s ->
  allHex (key n) = true /\ Nat.Even (String.length (key n)).
Proof.
  intros Hn. destruct (parsed_node_sound s n Hn) as [_ [bs Hbs]].
  destruct (DecodeString_shape _ _ Hbs) as [Hh Hl].
  split; [exact Hh |]. exists (length bs). exact Hl.
Qed.

Lemma parsed_key_is_hex_witness :
  allHex "ABcd" = true /\ Nat.Even (String.length "ABcd").
Proof.
  apply (parsed_key_is_hex "tox.example.org : 33445 : AB cd"
           {| host := "tox.example.org"; port := 33445; key := "ABcd" |}).
  vm_compute. left.
Defined.

(** X16: the host of every node the parser returns holds neither a colon
    nor a comma. *)
Theorem parsed_host_has_no_separator (s : string) (n : bootstrapNode) :
  n ∈ parseBootstrapEnv s ->
  hasByte ":" (host n) = false /\ hasByte "," (host n) = false.
Proof.
  intros Hn. rewrite parseBootstrapEnv_refines in Hn.
  unfold ParserSpec.parseTrimmed, ParserSpec.parse in Hn.
  apply list_elem_of_fmap in Hn as (entry & -> & Hentry).
  apply list_elem_of_In, filter_In in Hentry as [Hentry _].
  apply list_elem_of_In in Hentry. unfold ParserSpec.entries in Hentry.
  apply list_elem_of_fmap in Hentry as (item & -> & Hitem).
  cbn [ParserSpec.node host]. unfold ParserSpec.hostOf, ParserSpec.fields.
  rewrite (TrimSpace_keeps_byte ":") by apply spaceRunes_no_colon.
  rewrite (TrimSpace_keeps_byte ",") by apply spaceRunes_no_comma.
  assert (hasByte "," (TrimSpace item) = false) as Hcomma.
  { rewrite (TrimSpace_keeps_byte ",") by apply spaceRunes_no_comma.
    pose proof (Split_pieces (TrimSpace s) "," ",") as Hp.
    rewrite Forall_forall in Hp. exact (proj1 (Hp item Hitem)). }
  pose proof (Split_pieces (TrimSpace item) ":" ",") as Hp.
  apply (first_piece _ _ (Split_nonempty _ _)) in Hp as [Hc Hd].
  split; [exact Hc | now apply Hd].
Qed.

Lemma parsed_host_witness :
  hasByte ":" "tox.example.org" = false /\ hasByte "," "tox.example.org" = false.
Proof.
  apply (parsed_host_has_no_separator "tox.example.org : 33445 : AB cd"
           {| host := "tox.example.org"; port := 33445; key := "ABcd" |}).
  vm_compute. left.
Defined.

(** X17: the port check of the parser, [strconv.ParseUint(portStr, 10, 16)],
    accepts a string exactly when it is one or more decimal digits, with no
    sign and nothing else, whose value is at most 65535, and gives that
    value. *)
Theorem port_is_decimal_uint16 (s : string) (p : N) :
  ParseUint10 s 16 = inr p <->
  s <> "" /\ decimalValue 0 s = Some p /\ (p <= 65535)%N.
Proof.
  split.
  - intros H. destruct s as [| c s]; [discriminate |].
    split; [discriminate |]. unfold ParseUint10 in H.
    split; [now apply parseUintLoop_value in H |].
    apply parseUintLoop_bound in H; [exact H | lia].
  - intros (Hne & Hv & Hp). destruct s as [| c s]; [contradiction |].
    unfold ParseUint10. apply decimalValue_parses; [exact Hv | exact Hp | reflexivity].
Qed.

Lemma port_is_decimal_uint16_witness :
  ParseUint10 "033445" 16 = inr 33445%N /\
  decimalValue 0 "65535" = Some 65535%N.
Proof.
  split.
  - apply (port_is_decimal_uint16 "033445" 33445). repeat split; [discriminate | lia].
  - apply (port_is_decimal_uint16 "65535" 65535). reflexivity.
Defined.

(** X18: the key check of the parser, [hex.DecodeString], accepts exactly
    the strings of hexadecimal digits of even length, the empty one too and
    of any length: the parser does not ask for the 64 digits of a public
    key; the bytes it decodes are half as many as the digits. *)
Theorem key_check_is_even_hex (s : string) :
  (exists out, DecodeString s = inr out) <->
  allHex s = true /\ Nat.Even (String.length s).
Proof.
  split.
  - intros [out H]. destruct (DecodeString_shape _ _ H) as [Hh Hl].
    split; [exact Hh | now exists (length out)].
  - intros [Hh He]. now apply allHex_even_decodes.
Qed.

Lemma key_check_witness : exists out, DecodeString "7E5668" = inr out.
Proof.
  apply (key_check_is_even_hex "7E5668"). split; [reflexivity | now exists 3%nat].
Defined.

(** ** The shape of a trimmed string *)

Section TrimFacts.

Lemma sapp_assoc (s1 s2 s3 : string) : (s1 +:+ s2) +:+ s3 = s1 +:+ (s2 +:+ s3).
Proof. induction s1 as [| a s1 IH]; [reflexivity |]. rewrite !app_String. now rewrite IH. Qed.

Lemma sapp_nil_r (s : string) : s +:+ "" = s.
Proof. induction s as [| a s IH]; [reflexivity |]. rewrite app_String. now rewrite IH. Qed.

Lemma rev_app_spec (s1 s2 : string) : String.rev_app s1 s2 = String.rev s1 +:+ s2.
Proof.
  revert s2. induction s1 as [| a s1 IH]; intros s2; [reflexivity |].
  unfold String.rev. cbn [String.rev_app]. rewrite (IH (String a s2)), (IH (String a "")).
  now rewrite sapp_assoc.
Qed.

Lemma sapp_nil_l (s : string) : "" +:+ s = s.
Proof. reflexivity. Qed.

Lemma rev_String (a : ascii) (s : string) :
  String.rev (String a s) = String.rev s +:+ String a "".
Proof. unfold String.rev at 1. cbn [String.rev_app]. apply rev_app_spec. Qed.

Lemma rev_sapp (s1 s2 : string) : String.rev (s1 +:+ s2) = String.rev s2 +:+ String.rev s1.
Proof.
  induction s1 as [| a s1 IH].
  - cbn. now rewrite sapp_nil_r.
  - rewrite app_String. unfold String.rev at 1 3. cbn [String.rev_app].
    rewrite !rev_app_spec, IH. now rewrite sapp_assoc.
Qed.

Lemma rev_rev (s : string) : String.rev (String.rev s) = s.
Proof.
  induction s as [| a s IH]; [reflexivity |].
  unfold String.rev at 2. cbn [String.rev_app]. rewrite rev_app_spec, rev_sapp, IH.
  reflexivity.
Qed.

Lemma length_rev (s : string) : String.length (String.rev s) = String.length s.
Proof.
  induction s as [| a s IH]; [reflexivity |].
  unfold String.rev. cbn [String.rev_app]. rewrite rev_app_spec, length_app, IH.
  cbn. lia.
Qed.

Lemma madeOf_app (runes : list string) (s1 s2 : string) :
  madeOf runes s1 -> madeOf runes s2 -> madeOf runes (s1 +:+ s2).
Proof.
  induction 1 as [| r s Hr Hs IH]; intros H2; [exact H2 |].
  rewrite sapp_assoc. apply madeOf_rune; [exact Hr | now apply IH].
Qed.

Lemma madeOf_rev (runes : list string) (s : string) :
  madeOf runes s -> madeOf (String.rev <$> runes) (String.rev s).
Proof.
  induction 1 as [| r s Hr Hs IH]; [constructor |].
  rewrite rev_sapp. apply madeOf_app; [exact IH |].
  rewrite <- (sapp_nil_r (String.rev r)).
  apply madeOf_rune; [now apply list_elem_of_fmap_2 | constructor].
Qed.

Lemma blank_madeOf (s : string) : blank s <-> madeOf spaceRunes s.
Proof. split; induction 1; now constructor. Qed.

Lemma rev_rev_runes : String.rev <$> (String.rev <$> spaceRunes) = spaceRunes.
Proof. reflexivity. Qed.

Lemma trimRunes_split (runes : list string) (n : nat) (s : string) :
  exists a, madeOf runes a /\ s = a +:+ trimRunes runes n s.
Proof.
  revert s. induction n as [| n IH]; intros s; cbn [trimRunes].
  - exists "". split; [constructor | reflexivity].
  - destruct (stripRune runes s) as [rest |] eqn:E.
    + destruct (stripRune_app _ _ _ E) as (r & Hr & ->).
      destruct (IH rest) as (a & Ha & Hrest).
      exists (r +:+ a). split; [now apply madeOf_rune |].
      rewrite sapp_assoc. now rewrite <- Hrest.
    + exists "". split; [constructor | reflexivity].
Qed.

Lemma stripRune_empty (runes : list string) :
  Forall (fun r => r <> EmptyString) runes -> stripRune runes "" = None.
Proof.
  induction 1 as [| r rs Hr _ IH]; [reflexivity |].
  cbn. destruct r; [contradiction | exact IH].
Qed.

Lemma trimRunes_stops (runes : list string) (n : nat) (s : string) :
  Forall (fun r => r <> EmptyString) runes -> (String.length s <= n)%nat ->
  stripRune runes (trimRunes runes n s) = None.
Proof.
  intros Hne. revert s. induction n as [| n IH]; intros s Hn; cbn [trimRunes].
  - destruct s; [now apply stripRune_empty | simpl in Hn; lia].
  - destruct (stripRune runes s) as [rest |] eqn:E; [| exact E].
    apply IH. destruct (stripRune_app _ _ _ E) as (r & Hr & ->).
    rewrite Forall_forall in Hne. specialize (Hne r Hr).
    rewrite length_app in Hn. destruct r; [contradiction | simpl in Hn; lia].
Qed.

Lemma trimRunes_fixed (runes : list string) (n : nat) (s : string) :
  stripRune runes s = None -> trimRunes runes n s = s.
Proof. intros H. destruct n; cbn; [reflexivity | now rewrite H]. Qed.

Lemma stripPrefix_sapp (r u v rest : string) :
  stripPrefix r u = Some rest -> stripPrefix r (u +:+ v) = Some (rest +:+ v).
Proof.
  revert u. induction r as [| a r IH]; intros u; cbn.
  - now intros [= ->].
  - destruct u as [| b u]; [discriminate |]. rewrite app_String.
    destruct (byteEq a b); [apply IH | discriminate].
Qed.

Lemma stripRune_sapp_None (runes : list string) (u v : string) :
  stripRune runes (u +:+ v) = None -> stripRune runes u = None.
Proof.
  induction runes as [| r rs IH]; [reflexivity |]. cbn.
  destruct (stripPrefix r u) as [rest |] eqn:E.
  - now rewrite (stripPrefix_sapp _ _ v _ E).
  - destruct (stripPrefix r (u +:+ v)); [discriminate | exact IH].
Qed.

Lemma revRunes_nonempty : Forall (fun r => r <> EmptyString) (String.rev <$> spaceRunes).
Proof. unfold spaceRunes. repeat constructor; discriminate. Qed.

Lemma stripRune_space_rev (r rest : string) :
  r ∈ String.rev <$> spaceRunes ->
  stripRune (String.rev <$> spaceRunes) (r +:+ rest) = Some rest.
Proof.
  unfold spaceRunes. intros H. cbn [fmap list_fmap] in H.
  repeat (apply elem_of_cons in H as [-> | H]; [reflexivity |]).
  now apply elem_of_nil in H.
Qed.

(** Trimming takes away a whole run of runes that stands before a string
    with no rune at its front. *)
Lemma trimRunes_run (runes : list string) (a rest : string) :
  Forall (fun r => r <> EmptyString) runes ->
  (forall r x, r ∈ runes -> stripRune runes (r +:+ x) = Some x) ->
  madeOf runes a -> stripRune runes rest = None ->
  forall n, (String.length a <= n)%nat -> trimRunes runes n (a +:+ rest) = rest.
Proof.
  intros Hne Hstrip Ha Hrest. induction Ha as [| r s Hr Hs IH]; intros n Hn.
  - cbn. now apply trimRunes_fixed.
  - rewrite Forall_forall in Hne. pose proof (Hne r Hr) as Hr0.
    rewrite length_app in Hn.
    destruct n as [| n]; [destruct r; [contradiction | simpl in Hn; lia] |].
    cbn [trimRunes]. rewrite sapp_assoc, (Hstrip r _ Hr). apply IH.
    destruct r; [contradiction | simpl in Hn; lia].
Qed.

Lemma TrimSpace_tight (s : string) :
  startsWithSpace s = false -> endsWithSpace s = false -> TrimSpace s = s.
Proof.
  unfold startsWithSpace, endsWithSpace, TrimSpace, TrimRightSpace, TrimLeftSpace.
  destruct (stripRune spaceRunes s) eqn:E1; [discriminate |]. intros _.
  destruct (stripRune (String.rev <$> spaceRunes) (String.rev s)) eqn:E2; [discriminate |].
  intros _. rewrite (trimRunes_fixed _ _ _ E1), (trimRunes_fixed _ _ _ E2).
  apply rev_rev.
Qed.

Lemma TrimSpace_parts (s : string) :
  exists a b,
    blank a /\ blank b /\ s = a +:+ TrimSpace s +:+ b /\
    startsWithSpace (TrimSpace s) = false /\ endsWithSpace (TrimSpace s) = false.
Proof.
  unfold TrimSpace, TrimRightSpace.
  set (s1 := TrimLeftSpace s).
  destruct (trimRunes_split spaceRunes (String.length s) s) as (a & Ha & Hs).
  fold (TrimLeftSpace s) in Hs. fold s1 in Hs.
  destruct (trimRunes_split (String.rev <$> spaceRunes) (String.length s1) (String.rev s1))
    as (x & Hx & Hs1).
  set (y := trimRunes (String.rev <$> spaceRunes) (String.length s1) (String.rev s1)) in *.
  assert (s1 = String.rev y +:+ String.rev x) as Hs1'.
  { rewrite <- (rev_rev s1), Hs1. apply rev_sapp. }
  exists a, (String.rev x). split; [now apply blank_madeOf |].
  split.
  { apply blank_madeOf. rewrite <- rev_rev_runes. now apply madeOf_rev. }
  split; [now rewrite <- Hs1' |].
  split.
  - unfold startsWithSpace.
    assert (stripRune spaceRunes s1 = None) as Hn
      by (apply trimRunes_stops; [apply spaceRunes_nonempty | lia]).
    rewrite Hs1' in Hn. now rewrite (stripRune_sapp_None _ _ _ Hn).
  - unfold endsWithSpace. rewrite rev_rev. unfold y.
    rewrite trimRunes_stops; [reflexivity | apply revRunes_nonempty |].
    now rewrite length_rev.
Qed.

End TrimFacts.

Section PaddedFacts.

Lemma TrimSpace_padded (a c b : string) :
  blank a -> blank b ->
  (forall x, stripRune spaceRunes (c +:+ x) = None) ->
  (forall x, stripRune (String.rev <$> spaceRunes) (String.rev c +:+ x) = None) ->
  TrimSpace (a +:+ c +:+ b) = c.
Proof.
  intros Ha Hb Hfront Hback. unfold TrimSpace.
  assert (TrimLeftSpace (a +:+ c +:+ b) = c +:+ b) as ->.
  { unfold TrimLeftSpace. apply trimRunes_run.
    - apply spaceRunes_nonempty.
    - intros r x Hr. now apply stripRune_space.
    - now apply blank_madeOf.
    - apply Hfront.
    - rewrite length_app. lia. }
  unfold TrimRightSpace. rewrite rev_sapp.
  rewrite trimRunes_run.
  - apply rev_rev.
  - apply revRunes_nonempty.
  - intros r x Hr. now apply stripRune_space_rev.
  - apply madeOf_rev. now apply blank_madeOf.
  - rewrite <- (sapp_nil_r (String.rev c)). apply Hback.
  - rewrite length_rev, length_app. lia.
Qed.

End PaddedFacts.

(** X19: what [strings.TrimSpace] gives is the string without a run of
    white-space runes at its front and one at its end, and it neither
    starts nor ends with a white-space rune. *)
Theorem trimmed_string_shape (s : string) :
  exists a b,
    blank a /\ blank b /\ s = a +:+ TrimSpace s +:+ b /\
    startsWithSpace (TrimSpace s) = false /\ endsWithSpace (TrimSpace s) = false.
Proof. apply TrimSpace_parts. Qed.

(** X20: trimming what is trimmed changes nothing. *)
Theorem trimming_twice (s : string) : TrimSpace (TrimSpace s) = TrimSpace s.
Proof.
  destruct (TrimSpace_parts s) as (a & b & _ & _ & _ & Hfront & Hback).
  now apply TrimSpace_tight.
Qed.

(** X21: the two commands are known with any white space around them: a
    message that is "/ping" between two runs of white-space runes is
    answered by "pong", and "/id" between two such runs by the bot's
    address. *)
Theorem commands_with_white_space (t : Tox) (friend : N) (a b : string) :
  blank a -> blank b ->
  outbox (onFriendMessage t friend (a +:+ "/ping" +:+ b)) =
    outbox t ++ [(friend, "pong")] /\
  outbox (onFriendMessage t friend (a +:+ "/id" +:+ b)) =
    outbox t ++ [(friend, "my tox id: " +:+ selfAddress t)].
Proof.
  intros Ha Hb. unfold onFriendMessage.
  rewrite (TrimSpace_padded a "/ping" b Ha Hb) by (intros x; reflexivity).
  rewrite (TrimSpace_padded a "/id" b Ha Hb) by (intros x; reflexivity).
  split; reflexivity.
Qed.

Lemma commands_with_white_space_witness :
  outbox (onFriendMessage (bot "76518406F6A9") 3
            (bytes [9; 32] +:+ "/ping" +:+ bytes [226; 128; 168; 13; 10])) =
  [(3%N, "pong")].
Proof.
  apply (commands_with_white_space (bot "76518406F6A9") 3
           (bytes [9; 32]) (bytes [226; 128; 168; 13; 10])).
  - apply (blank_rune (bytes [9])); [apply list_elem_of_In; vm_compute; tauto |].
    apply (blank_rune (bytes [32]) ""); [apply list_elem_of_In; vm_compute; tauto |].
    apply blank_empty.
  - apply (blank_rune (bytes [226; 128; 168])); [apply list_elem_of_In; vm_compute; tauto |].
    apply (blank_rune (bytes [13])); [apply list_elem_of_In; vm_compute; tauto |].
    apply (blank_rune (bytes [10]) ""); [apply list_elem_of_In; vm_compute; tauto |].
    apply blank_empty.
Defined.

(** X22: the host of every node the parser returns has no white space at
    its front or its end, and neither has a value that [getenv] takes from
    the environment. *)
Theorem hosts_and_settings_are_trimmed :
  (forall (s : string) (n : bootstrapNode),
     n ∈ parseBootstrapEnv s ->
     startsWithSpace (host n) = false /\ endsWithSpace (host n) = false) /\
  (forall (env : gmap string string) (k def : string),
     getenv env k def = def \/
     (startsWithSpace (getenv env k def) = false /\
      endsWithSpace (getenv env k def) = false)).
Proof.
  split.
  - intros s n Hn. rewrite parseBootstrapEnv_refines in Hn.
    unfold ParserSpec.parseTrimmed, ParserSpec.parse in Hn.
    apply list_elem_of_fmap in Hn as (entry & -> & _).
    cbn [ParserSpec.node host]. unfold ParserSpec.hostOf.
    destruct (TrimSpace_parts (nth 0 (ParserSpec.fields entry) ""))
      as (a & b & _ & _ & _ & Hfront & Hback).
    now split.
  - intros env k def. unfold getenv.
    destruct (String.eqb (TrimSpace (Getenv env k)) ""); [now left | right].
    destruct (TrimSpace_parts (Getenv env k)) as (a & b & _ & _ & _ & Hfront & Hback).
    now split.
Qed.

Lemma hosts_and_settings_witness :
  startsWithSpace "tox.example.org" = false /\ endsWithSpace "tox.example.org" = false.
Proof.
  apply (proj1 hosts_and_settings_are_trimmed "tox.example.org : 33445 : AB cd"
           {| host := "tox.example.org"; port := 33445; key := "ABcd" |}).
  vm_compute. left.
Defined.

(** ** Entries that are well formed *)

Section WellFormed.

Lemma byteEq_true (a b : ascii) : byteEq a b = true -> a = b.
Proof. unfold byteEq. intros H. now apply bool_decide_eq_true in H. Qed.

Lemma byteEq_refl (a : ascii) : byteEq a a = true.
Proof. unfold byteEq. now apply bool_decide_eq_true. Qed.

Lemma stripPrefix_split (r h x rest : string) :
  stripPrefix r (h +:+ x) = Some rest ->
  (exists rest', stripPrefix r h = Some rest') \/
  (exists r2, r = h +:+ r2 /\ stripPrefix r2 x = Some rest).
Proof.
  revert h. induction r as [| a r IH]; intros h; cbn [stripPrefix].
  - intros _. left. eauto.
  - destruct h as [| b h].
    + intros H. right. exists (String a r). split; [reflexivity | exact H].
    + rewrite app_String. destruct (byteEq a b) eqn:Eab; [| discriminate].
      apply byteEq_true in Eab. subst b. intros H.
      destruct (IH h H) as [[rest' Hl] | (r2 & -> & Hr)]; [left; eauto |].
      right. exists r2. split; [reflexivity | exact Hr].
Qed.

Lemma stripRune_inv (runes : list string) (s rest : string) :
  stripRune runes s = Some rest -> exists r, r ∈ runes /\ stripPrefix r s = Some rest.
Proof.
  induction runes as [| r rs IH]; cbn; [discriminate |].
  destruct (stripPrefix r s) as [y |] eqn:E.
  - intros [= ->]. exists r. split; [left | exact E].
  - intros H. destruct (IH H) as (r' & Hr' & Hs). exists r'. split; [now right | exact Hs].
Qed.

Lemma stripRune_some (runes : list string) (r s y : string) :
  r ∈ runes -> stripPrefix r s = Some y -> stripRune runes s <> None.
Proof.
  induction runes as [| r0 rs IH]; intros Hin Hs; [now apply elem_of_nil in Hin |].
  cbn. apply elem_of_cons in Hin as [<- | Hin].
  - now rewrite Hs.
  - destruct (stripPrefix r0 s); [discriminate | now apply IH].
Qed.

(** No rune starts a string whose front has none and goes on with a byte
    that no rune holds. *)
Lemma noRune_before (runes : list string) (c : ascii) (h x : string) :
  Forall (fun r => hasByte c r = false) runes ->
  stripRune runes h = None -> stripRune runes (h +:+ String c x) = None.
Proof.
  intros Hc Hh. destruct (stripRune runes (h +:+ String c x)) as [rest |] eqn:E;
    [| reflexivity].
  exfalso. destruct (stripRune_inv _ _ _ E) as (r & Hr & Hs).
  destruct (stripPrefix_split _ _ _ _ Hs) as [[rest' Hl] | (r2 & -> & Hr2)].
  - now apply (stripRune_some runes r h rest' Hr Hl).
  - rewrite Forall_forall in Hc. specialize (Hc _ Hr). rewrite hasByte_app in Hc.
    apply orb_false_iff in Hc as [_ Hc].
    destruct r2 as [| d r2].
    + apply (stripRune_some runes (h +:+ "") h "" Hr); [| exact Hh].
      rewrite sapp_nil_r. clear. induction h as [| a h IH]; cbn; [reflexivity |].
      now rewrite byteEq_refl.
    + cbn [stripPrefix] in Hr2. destruct (byteEq d c) eqn:Edc; [| discriminate].
      cbn [hasByte] in Hc. now rewrite Edc in Hc.
Qed.

Lemma revRunes_no_colon : Forall (fun r => hasByte ":" r = false) (String.rev <$> spaceRunes).
Proof. unfold spaceRunes. repeat constructor. Qed.

Lemma hex_byte_plain (c : ascii) (d : N) (y : string) :
  fromHexChar c = Some d ->
  stripRune spaceRunes (String c y) = None /\
  stripRune (String.rev <$> spaceRunes) (String c y) = None.
Proof.
  destruct c as [[] [] [] [] [] [] [] []]; intros H;
    first [discriminate H | split; reflexivity].
Qed.

Lemma hex_byte_lacks (c : ascii) (s : string) :
  fromHexChar c = None -> allHex s = true -> hasByte c s = false.
Proof.
  intros Hc. induction s as [| a s IH]; [reflexivity |]. cbn.
  destruct (fromHexChar a) eqn:Ea; [| discriminate]. intros Hs.
  rewrite (IH Hs). unfold byteEq. case_bool_decide as Hac; [congruence | reflexivity].
Qed.

Lemma allHex_app (s1 s2 : string) : allHex (s1 +:+ s2) = allHex s1 && allHex s2.
Proof.
  induction s1 as [| a s1 IH]; [reflexivity |]. rewrite app_String. cbn [allHex].
  now destruct (fromHexChar a).
Qed.

Lemma allHex_rev (s : string) : allHex (String.rev s) = allHex s.
Proof.
  induction s as [| a s IH]; [reflexivity |].
  unfold String.rev. cbn [String.rev_app]. rewrite rev_app_spec, allHex_app, IH.
  cbn [allHex]. destruct (fromHexChar a), (allHex s); reflexivity.
Qed.

Lemma allHex_tight (s : string) :
  allHex s = true -> startsWithSpace s = false /\ endsWithSpace s = false.
Proof.
  intros H. unfold startsWithSpace, endsWithSpace.
  assert (forall u, allHex u = true ->
            stripRune spaceRunes u = None /\
            stripRune (String.rev <$> spaceRunes) u = None) as Hplain.
  { intros [| c u]; [now split |]. cbn [allHex].
    destruct (fromHexChar c) as [d |] eqn:Ec; [| discriminate].
    intros _. now apply (hex_byte_plain c d). }
  rewrite (proj1 (Hplain s H)).
  rewrite <- allHex_rev in H. now rewrite (proj2 (Hplain _ H)).
Qed.

Lemma decimalValue_hex (n p : N) (s : string) :
  decimalValue n s = Some p -> allHex s = true.
Proof.
  revert n. induction s as [| c s IH]; intros n; [reflexivity |]. cbn.
  unfold decimalDigit, fromHexChar.
  destruct ((48 <=? N_of_ascii c)%N && (N_of_ascii c <=? 57)%N); [apply IH | discriminate].
Qed.

Lemma Split_absent (s : string) (c : ascii) : hasByte c s = false -> Split s c = [s].
Proof.
  induction s as [| a s IH]; [reflexivity |]. cbn.
  intros H. apply orb_false_iff in H as [Ha Hs]. rewrite Ha, (IH Hs). reflexivity.
Qed.

Lemma Split_at (s1 s2 : string) (c : ascii) :
  hasByte c s1 = false -> Split (s1 +:+ String c s2) c = s1 :: Split s2 c.
Proof.
  induction s1 as [| a s1 IH]; intros H.
  - change ("" +:+ String c s2) with (String c s2). cbn [Split].
    now rewrite byteEq_refl.
  - cbn [hasByte] in H. apply orb_false_iff in H as [Ha Hs].
    rewrite app_String. cbn [Split]. rewrite Ha, (IH Hs). reflexivity.
Qed.

Lemma ReplaceAll_absent (s : string) (c : ascii) (new : string) :
  hasByte c s = false -> ReplaceAll s c new = s.
Proof.
  induction s as [| a s IH]; [reflexivity |]. cbn.
  intros H. apply orb_false_iff in H as [Ha Hs]. rewrite Ha, (IH Hs). reflexivity.
Qed.

End WellFormed.

(** X23: an entry host:port:key, alone in the string, whose host has no
    colon, no comma and no white space at its ends, whose port parses and
    whose key decodes, is accepted, and the node returned has that host,
    the number of the port and that key, each as written. *)
Theorem well_formed_entry_is_returned (h ps k : string) (p : N) (bs : list N) :
  hasByte ":" h = false -> hasByte "," h = false ->
  startsWithSpace h = false -> endsWithSpace h = false ->
  ParseUint10 ps 16 = inr p -> DecodeString k = inr bs ->
  parseBootstrapEnv (h +:+ ":" +:+ ps +:+ ":" +:+ k) =
    [ {| host := h; port := p; key := k |} ].
Proof.
  intros Hhc Hhm Hhs Hhe Hp Hk.
  change (h +:+ ":" +:+ ps +:+ ":" +:+ k) with (h +:+ String ":" (ps +:+ String ":" k)).
  set (s := h +:+ String ":" (ps +:+ String ":" k)).
  assert (allHex k = true) as Hkx by (now apply (DecodeString_shape k bs)).
  assert (allHex ps = true) as Hpx.
  { destruct ps; [discriminate |]. unfold ParseUint10 in Hp.
    apply parseUintLoop_value in Hp. now apply decimalValue_hex in Hp. }
  assert (TrimSpace s = s) as Hs.
  { apply TrimSpace_tight.
    - unfold startsWithSpace in *. subst s.
      rewrite (noRune_before spaceRunes); [reflexivity | apply spaceRunes_no_colon |].
      now destruct (stripRune spaceRunes h).
    - unfold endsWithSpace. subst s.
      replace (h +:+ String ":" (ps +:+ String ":" k))
        with ((h +:+ String ":" ps) +:+ String ":" k)
        by (now rewrite !sapp_assoc, !app_String).
      rewrite rev_sapp, rev_String, sapp_assoc, app_String, sapp_nil_l.
      rewrite (noRune_before (String.rev <$> spaceRunes));
        [reflexivity | apply revRunes_no_colon |].
      destruct (allHex_tight k Hkx) as [_ He]. unfold endsWithSpace in He.
      now destruct (stripRune (String.rev <$> spaceRunes) (String.rev k)). }
  assert (hasByte "," s = false) as Hcomma.
  { subst s. rewrite hasByte_app. cbn [hasByte]. rewrite hasByte_app. cbn [hasByte].
    rewrite Hhm, (hex_byte_lacks "," ps eq_refl Hpx), (hex_byte_lacks "," k eq_refl Hkx).
    reflexivity. }
  unfold parseBootstrapEnv. rewrite Hs.
  destruct (String.eqb_spec s "") as [He | _].
  { subst s. destruct h; discriminate He. }
  rewrite (Split_absent s "," Hcomma). cbn [fold_left].
  unfold parseBootstrapItem. rewrite Hs.
  destruct (String.eqb_spec s "") as [He | _].
  { subst s. destruct h; discriminate He. }
  subst s. rewrite (Split_at h _ ":" Hhc).
  rewrite (Split_at ps k ":" (hex_byte_lacks ":" ps eq_refl Hpx)).
  rewrite (Split_absent k ":" (hex_byte_lacks ":" k eq_refl Hkx)).
  cbn [length Nat.ltb Nat.leb nth drop Join String.concat].
  rewrite (TrimSpace_tight h Hhs Hhe).
  rewrite (TrimSpace_tight ps (proj1 (allHex_tight ps Hpx)) (proj2 (allHex_tight ps Hpx))).
  rewrite (TrimSpace_tight k (proj1 (allHex_tight k Hkx)) (proj2 (allHex_tight k Hkx))).
  rewrite Hp, (ReplaceAll_absent k " " "" (hex_byte_lacks " " k eq_refl Hkx)), Hk.
  now rewrite (ParseUint10_uint16 ps p Hp).
Qed.

Lemma well_formed_entry_witness :
  parseBootstrapEnv ("144.217.167.73" +:+ ":" +:+ "33445" +:+ ":" +:+ "7E5668E0") =
    [ {| host := "144.217.167.73"; port := 33445; key := "7E5668E0" |} ].
Proof.
  apply (well_formed_entry_is_returned "144.217.167.73" "33445" "7E5668E0" 33445
           [126; 86; 104; 224]%N); reflexivity.
Defined.

(** ** The state that the shutdown saves *)

(** X24: once the signal is there the engine is left alone, but for a tick
    that the loop had already chosen to make: in an execution that starts
    with the context cancelled and no such tick ahead, the engine at the end
    is the engine at the start. *)
Theorem engine_frozen_after_signal (saveFile : string) (p p' : Proc) (tr : list Event) :
  run saveFile p tr p' -> ctxDone p = true -> stage p <> TickChosen ->
  engine p' = engine p.
Proof.
  induction 1 as [p | p e p1 tr p2 Ha Hrun IH | p evs p1 tr p2 Hp Hrun IH]; intros Hd Hs.
  - reflexivity.
  - destruct Ha; cbn [ctxDone engine stage] in IH; now apply IH.
  - destruct Hp as [p a H H0 Hd' | p a H H0 H1 | p H H0 Hd' H1 | p t' H H0 | p H H0];
      [| | congruence | congruence |];
      cbn [ctxDone engine stage] in IH; now apply IH.
Qed.

Lemma engine_frozen_witness : engine lastProc = engine bothPending.
Proof.
  apply (engine_frozen_after_signal "/data/bot.tox" bothPending lastProc
           [EvSave; EvShutdown; EvSave; EvReturn]); [| reflexivity | discriminate].
  eapply (run_pass _ _ [EvSave]); [eapply (pass_save _ _ fine); reflexivity |].
  eapply (run_pass _ _ [EvShutdown; EvSave; EvReturn] _ []);
    [eapply (pass_shutdown _ _ fine); reflexivity |].
  apply run_stop.
Defined.



(** X26: the entry point under cmd/ does not look at the environment: for
    every environment it calls [t.Bootstrap] for the two built-in nodes, in
    their order and after the calls made before, none of them skipped by
    its check of the key, and it changes nothing else of the engine. *)
Theorem cmd_bootstraps_builtin_pair (env : gmap string string) (t : Tox) :
  bootstrapped (Cmd.bootstrapAll env t) =
    bootstrapped t ++ (attempt <$> Cmd.bootstrapNodes) /\
  selfAddress (Cmd.bootstrapAll env t) = selfAddress t /\
  savedata (Cmd.bootstrapAll env t) = savedata t /\
  outbox (Cmd.bootstrapAll env t) = outbox t.
Proof.
  split; [exact (Cmd_ignores_environment env t) |].
  unfold Cmd.bootstrapAll, Cmd.bootstrapNodes, Cmd.bootstrapOne.
  cbn [fold_left key host port].
  repeat match goal with
         | |- context [DecodeString ?k] =>
             let E := fresh "E" in
             destruct (DecodeString k) eqn:E; [vm_compute in E; discriminate |]
         end.
  repeat split.
Qed.
